(** * The InferenceService controller (pkg/controller/v1beta1/inferenceservice)

    A shallow embedding of [controller.go]: the reconcile loop of the
    InferenceService controller, its status commit and its readiness
    evaluator.  The controller talks to the API server, to the component
    and ingress reconcilers and to the event recorder through interfaces;
    here these are type classes over an abstract cluster state, and every
    call the controller makes is written, with what it returned, to a
    chronological trace.  Calls to the logger are left out: they return
    nothing and have no bearing on what the controller does next. *)

From stdpp Require Import base decidable option list strings gmap fin_maps.

Local Open Scope string_scope.
Local Open Scope list_scope.

(** ** Values of the imported API packages *)

(** k8s.io/api/core/v1: condition statuses and event types are strings. *)
Module v1.
Definition ConditionStatus := string.
Definition ConditionTrue : ConditionStatus := "True".
Definition ConditionFalse : ConditionStatus := "False".
Definition ConditionUnknown : ConditionStatus := "Unknown".
Definition EventTypeNormal : string := "Normal".
Definition EventTypeWarning : string := "Warning".
End v1.

(** knative.dev/pkg/apis: a condition, and the name of the distinguished
  happy condition of a living condition set. *)
Module apis.
Definition ConditionType := string.
Definition ConditionReady : ConditionType := "Ready".

Record Condition := mkCondition {
  Type_ : ConditionType;
  Status : v1.ConditionStatus;
  Severity : string;
  LastTransitionTime : Z;
  Reason : string;
  Message : string
}.

#[global] Instance Condition_eq_dec : EqDecision Condition.
Proof. solve_decision. Defined.
End apis.

(** k8s.io/apimachinery/pkg/types *)
Module types.
Record NamespacedName := mkNamespacedName {
  Namespace : string;
  Name : string
}.

#[global] Instance NamespacedName_eq_dec : EqDecision NamespacedName.
Proof. solve_decision. Defined.

#[global] Instance NamespacedName_countable : Countable NamespacedName.
Proof.
  refine (inj_countable' (fun k => (Namespace k, Name k))
                         (fun p => mkNamespacedName p.1 p.2) _).
  by intros [].
Defined.
End types.

(** Go errors: an API status error carrying a reason (k8s.io/apimachinery
  api/errors), a plain error, and the wrapper built by
  github.com/pkg/errors. *)
Inductive error :=
| StatusError (reason : string) (message : string)
| errorString (s : string)
| withMessage (cause : error) (msg : string).

#[global] Instance error_eq_dec : EqDecision error.
Proof. solve_decision. Defined.

(** [err.Error()] *)
Fixpoint Error (err : error) : string :=
match err with
| StatusError _ message => message
| errorString s => s
| withMessage cause msg => msg +:+ ": " +:+ Error cause
end.

Module errors.
(** [errors.Wrapf(err, msg)] for a non-nil [err] (the controller only
    wraps inside [err != nil] branches). *)
Definition Wrapf (err : error) (msg : string) : error := withMessage err msg.
End errors.

Module apierr.
Definition StatusReasonUnknown : string := "".
Definition StatusReasonNotFound : string := "NotFound".

Definition ReasonForError (err : error) : string :=
  match err with
  | StatusError reason _ => reason
  | _ => StatusReasonUnknown
  end.

Definition IsNotFound (err : error) : bool :=
  bool_decide (ReasonForError err = StatusReasonNotFound).
End apierr.

(** sigs.k8s.io/controller-runtime/pkg/reconcile *)
Module reconcile.
Record Result := mkResult {
  Requeue : bool;
  RequeueAfter : Z
}.

(** The zero value [reconcile.Result{}]. *)
Definition zero : Result := {| Requeue := false; RequeueAfter := 0 |}.

#[global] Instance Result_eq_dec : EqDecision Result.
Proof. solve_decision. Defined.
End reconcile.

(** ** The InferenceService object (pkg/apis/serving/v1beta1) *)

Module v1beta1api.
(** The component specs are opaque to the controller: it only looks at
    whether the two optional ones are present (non-nil pointers). *)
Record PredictorSpec := mkPredictorSpec { predictor_params : string }.
Record TransformerSpec := mkTransformerSpec { transformer_params : string }.
Record ExplainerSpec := mkExplainerSpec { explainer_params : string }.

Record InferenceServiceSpec := mkInferenceServiceSpec {
  Predictor : PredictorSpec;
  Transformer : option TransformerSpec;
  Explainer : option ExplainerSpec
}.

(** Modelled from the spec: the status type is declared in
    pkg/apis/serving/v1beta1, which is not part of the sources at hand.
    The data model gives it a set of named conditions plus
    component-specific state.  [Conditions] is a Go slice, so it may be
    nil ([None]) as well as empty. *)
Record InferenceServiceStatus := mkInferenceServiceStatus {
  Conditions : option (list apis.Condition);
  Components : gmap string string
}.

Record InferenceService := mkInferenceService {
  Namespace : string;
  Name : string;
  Spec : InferenceServiceSpec;
  Status : InferenceServiceStatus
}.

#[global] Instance PredictorSpec_eq_dec : EqDecision PredictorSpec.
Proof. solve_decision. Defined.
#[global] Instance TransformerSpec_eq_dec : EqDecision TransformerSpec.
Proof. solve_decision. Defined.
#[global] Instance ExplainerSpec_eq_dec : EqDecision ExplainerSpec.
Proof. solve_decision. Defined.
#[global] Instance InferenceServiceSpec_eq_dec : EqDecision InferenceServiceSpec.
Proof. solve_decision. Defined.
#[global] Instance InferenceServiceStatus_eq_dec : EqDecision InferenceServiceStatus.
Proof. solve_decision. Defined.
#[global] Instance InferenceService_eq_dec : EqDecision InferenceService.
Proof. solve_decision. Defined.

(** Modelled from the spec: [InferenceServiceStatus.GetCondition] lives
    in pkg/apis/serving/v1beta1 (not among the sources at hand); it hands
    back the condition of the given name when one is present in the
    condition set, the first one in slice order, and nil otherwise. *)
Definition GetCondition (status : InferenceServiceStatus)
           (t : apis.ConditionType) : option apis.Condition :=
  match Conditions status with
  | None => None
  | Some cs => List.find (fun c => bool_decide (apis.Type_ c = t)) cs
  end.
End v1beta1api.

Import v1beta1api.

(** ** The readiness evaluator *)

(** [inferenceServiceReadiness]: a conjunction evaluated left to right;
  the third conjunct dereferences the pointer the second one found
  non-nil. *)
Definition inferenceServiceReadiness (status : InferenceServiceStatus) : bool :=
bool_decide (Conditions status ≠ None) &&
bool_decide (GetCondition status apis.ConditionReady ≠ None) &&
match GetCondition status apis.ConditionReady with
| Some c => bool_decide (apis.Status c = v1.ConditionTrue)
| None => false
end.

(** ** Collaborators *)

(** The outcome of a call that hands back a value or a non-nil error. *)
Inductive result (A : Type) :=
| Ok (a : A)
| Err (err : error).
Arguments Ok {A} a.
Arguments Err {A} err.

(** pkg/controller/v1beta1/inferenceservice/components: the three
    implementations of the [Component] interface, each built from the
    loaded configuration (the client and the scheme are those of the
    controller itself). *)
Module components.
Inductive Component (Config : Type) :=
| Predictor (inferenceServiceConfig : Config)
| Transformer (inferenceServiceConfig : Config)
| Explainer (inferenceServiceConfig : Config).
Arguments Predictor {Config} _.
Arguments Transformer {Config} _.
Arguments Explainer {Config} _.

Definition NewPredictor {Config} (c : Config) : Component Config := Predictor c.
Definition NewTransformer {Config} (c : Config) : Component Config := Transformer c.
Definition NewExplainer {Config} (c : Config) : Component Config := Explainer c.

(** The component a reconciler stands for, whatever its configuration. *)
Inductive Kind := PredictorKind | TransformerKind | ExplainerKind.

Definition kind {Config} (c : Component Config) : Kind :=
  match c with
  | Predictor _ => PredictorKind
  | Transformer _ => TransformerKind
  | Explainer _ => ExplainerKind
  end.

#[global] Instance Kind_eq_dec : EqDecision Kind.
Proof. solve_decision. Defined.
End components.

(** k8s.io/client-go/tools/record: what one [Eventf] call hands to the
    recorder.  [args] are the values for the verbs of [messageFmt]. *)
Module record.
Inductive fmtArg :=
| ArgString (s : string)
| ArgError (err : error).

Record Event := mkEvent {
  object : InferenceService;
  eventtype : string;
  reason : string;
  messageFmt : string;
  args : list fmtArg
}.

#[global] Instance fmtArg_eq_dec : EqDecision fmtArg.
Proof. solve_decision. Defined.
#[global] Instance Event_eq_dec : EqDecision Event.
Proof. solve_decision. Defined.
End record.

(** sigs.k8s.io/controller-runtime *)
Module ctrl.
Record Request := mkRequest { NamespacedName : types.NamespacedName }.
End ctrl.

(** The API client, over a cluster state [W].  Objects are passed by
    pointer in the source: [Get] fills a fresh object, [Status().Update]
    overwrites the object it is given with the server's answer. *)
Class Client (W : Type) := {
  Get : types.NamespacedName -> W -> result InferenceService * W;
  StatusUpdate : InferenceService -> W -> (InferenceService * option error) * W
}.

(** [v1beta1api.NewInferenceServicesConfig] and [v1beta1api.NewIngressConfig]
    read config maps through the client; the configurations themselves are
    opaque to the controller. *)
Class Configs (W ISC IC : Type) := {
  NewInferenceServicesConfig : W -> result ISC * W;
  NewIngressConfig : W -> result IC * W
}.

(** [Component.Reconcile] and the ingress reconciler's [Reconcile]: both
    take the object by pointer and may change its status in place. *)
Class Reconcilers (W ISC IC : Type) := {
  ComponentReconcile :
    components.Component ISC -> InferenceService -> W ->
    (InferenceService * option error) * W;
  IngressReconcile :
    IC -> InferenceService -> W -> (InferenceService * option error) * W
}.

(** [equality.Semantic.DeepEqual] on statuses (k8s.io/apimachinery): a
    library comparison that is coarser than structural equality; all that
    is relied on is that it accepts structurally equal values. *)
Class Equalities := {
  DeepEqual : InferenceServiceStatus -> InferenceServiceStatus -> bool;
  DeepEqual_refl : forall s, DeepEqual s s = true
}.

(** The two event reasons declared in pkg/apis/serving/v1alpha2. *)
Class States := {
  InferenceServiceReadyState : string;
  InferenceServiceNotReadyState : string
}.

(** ** Traces *)

Section Trace.
Context {ISC IC : Type}.

(** One entry per call the controller makes, with what the call returned. *)
Inductive Action :=
| CallGet (key : types.NamespacedName) (res : result InferenceService)
| CallNewInferenceServicesConfig (res : result ISC)
| CallComponentReconcile (c : components.Component ISC)
    (isvc isvc' : InferenceService) (err : option error)
| CallNewIngressConfig (res : result IC)
| CallIngressReconcile (cfg : IC) (isvc isvc' : InferenceService)
    (err : option error)
| CallStatusUpdate (obj obj' : InferenceService) (err : option error)
| CallEventf (ev : record.Event).

(** The component reconcilers invoked, in order. *)
Definition componentCalls (tr : list Action) : list (components.Component ISC) :=
  omap (fun a => match a with
                 | CallComponentReconcile c _ _ _ => Some c
                 | _ => None
                 end) tr.

(** The component reconcilers invoked, in order, each with how it ended. *)
Definition componentResults (tr : list Action)
  : list (components.Component ISC * option error) :=
  omap (fun a => match a with
                 | CallComponentReconcile c _ _ err => Some (c, err)
                 | _ => None
                 end) tr.

(** The errors of the component reconcilers that failed. *)
Definition componentFailures (tr : list Action) : list error :=
  omap (fun a => match a with
                 | CallComponentReconcile _ _ _ (Some err) => Some err
                 | _ => None
                 end) tr.

(** The errors of the ingress reconciler calls that failed. *)
Definition ingressFailures (tr : list Action) : list error :=
  omap (fun a => match a with
                 | CallIngressReconcile _ _ _ (Some err) => Some err
                 | _ => None
                 end) tr.

(** The objects handed to the ingress reconciler. *)
Definition ingressCalls (tr : list Action) : list InferenceService :=
  omap (fun a => match a with
                 | CallIngressReconcile _ isvc _ _ => Some isvc
                 | _ => None
                 end) tr.

(** The objects handed to [Status().Update]: the store writes attempted. *)
Definition storeWrites (tr : list Action) : list InferenceService :=
  omap (fun a => match a with
                 | CallStatusUpdate obj _ _ => Some obj
                 | _ => None
                 end) tr.

(** The objects whose status write went through. *)
Definition successfulWrites (tr : list Action) : list InferenceService :=
  omap (fun a => match a with
                 | CallStatusUpdate obj _ None => Some obj
                 | _ => None
                 end) tr.

(** The events handed to the recorder. *)
Definition events (tr : list Action) : list record.Event :=
  omap (fun a => match a with
                 | CallEventf ev => Some ev
                 | _ => None
                 end) tr.

(** The object as the sub-reconcilers left it: what the ingress reconciler
    handed back on success, which is what the status commit receives. *)
Definition ingressResults (tr : list Action) : list InferenceService :=
  omap (fun a => match a with
                 | CallIngressReconcile _ _ isvc' None => Some isvc'
                 | _ => None
                 end) tr.

Definition desiredOf (tr : list Action) : option InferenceService :=
  last (ingressResults tr).
(** The errors of all the calls that failed, whatever the collaborator. *)
Definition failures (tr : list Action) : list error :=
  omap (fun a => match a with
                 | CallGet _ (Err err) => Some err
                 | CallNewInferenceServicesConfig (Err err) => Some err
                 | CallComponentReconcile _ _ _ (Some err) => Some err
                 | CallNewIngressConfig (Err err) => Some err
                 | CallIngressReconcile _ _ _ (Some err) => Some err
                 | CallStatusUpdate _ _ (Some err) => Some err
                 | _ => None
                 end) tr.

(** The keys the object was read by. *)
Definition gets (tr : list Action) : list types.NamespacedName :=
  omap (fun a => match a with
                 | CallGet key _ => Some key
                 | _ => None
                 end) tr.

(** The object as each call that takes it by pointer received it and as
    the call left it: component reconcilers, ingress reconciler, status
    write. *)
Definition handoffs (tr : list Action) : list (InferenceService * InferenceService) :=
  omap (fun a => match a with
                 | CallComponentReconcile _ isvc isvc' _ => Some (isvc, isvc')
                 | CallIngressReconcile _ isvc isvc' _ => Some (isvc, isvc')
                 | CallStatusUpdate obj obj' _ => Some (obj, obj')
                 | _ => None
                 end) tr.

(** Each call receives the object as the call before it left it, the first
    one receiving [start]. *)
Fixpoint chained (start : InferenceService)
         (hs : list (InferenceService * InferenceService)) : Prop :=
  match hs with
  | [] => True
  | (received, handed) :: hs => received = start /\ chained handed hs
  end.

(** The object as the last of the calls left it. *)
Definition lastLeft (start : InferenceService)
           (hs : list (InferenceService * InferenceService)) : InferenceService :=
  match last hs with
  | Some (_, handed) => handed
  | None => start
  end.

End Trace.
Arguments Action : clear implicits.

(** ** The controller *)

(** What running a piece of the controller from a cluster state gives: the
    value it returns, the cluster state it leaves, the calls it made. *)
Record Run (W ISC IC A : Type) := mkRun {
  value : A;
  final : W;
  trace : list (Action ISC IC)
}.
Arguments mkRun {W ISC IC A} _ _ _.
Arguments value {W ISC IC A} _.
Arguments final {W ISC IC A} _.
Arguments trace {W ISC IC A} _.

Definition M (W ISC IC A : Type) : Type := W -> Run W ISC IC A.

Definition ret {W ISC IC A} (a : A) : M W ISC IC A :=
  fun w => mkRun a w [].

Definition bind {W ISC IC A B} (m : M W ISC IC A) (k : A -> M W ISC IC B)
  : M W ISC IC B :=
  fun w => let r := m w in
           let r' := k (value r) (final r) in
           mkRun (value r') (final r') (trace r ++ trace r').

(** A call to a collaborator: run it on the cluster state and log it. *)
Definition call {W ISC IC A} (f : W -> A * W) (log : A -> Action ISC IC)
  : M W ISC IC A :=
  fun w => let '(a, w') := f w in mkRun a w' [log a].

#[global] Instance M_ret {W ISC IC} : MRet (M W ISC IC) := fun A a => ret a.
#[global] Instance M_bind {W ISC IC} : MBind (M W ISC IC) := fun A B k m => bind m k.

Section Controller.
Context {W ISC IC : Type}.
Context {client : Client W} {configs : Configs W ISC IC}.
Context {subReconcilers : Reconcilers W ISC IC}.
Context {equalities : Equalities} {states : States}.

Local Abbreviation M := (M W ISC IC).

(** [r.Recorder.Eventf(object, eventtype, reason, messageFmt, args...)]:
    handed to the recorder and forgotten. *)
Definition Eventf (object : InferenceService) (eventtype reason messageFmt : string)
           (args : list record.fmtArg) : M unit :=
  fun w => mkRun tt w [CallEventf (record.mkEvent object eventtype reason messageFmt args)].

(** [updateStatus].  The object is held by pointer, so what the caller sees
    afterwards is the object as [Status().Update] left it; it is returned
    next to the error. *)
Definition updateStatus (desiredService : InferenceService)
  : M (InferenceService * option error) :=
  let namespacedName :=
    {| types.Name := Name desiredService;
       types.Namespace := Namespace desiredService |} in
  r ← call (Get namespacedName) (CallGet namespacedName);
  match r with
  | Err err => mret (desiredService, Some err)
  | Ok existingService =>
    let wasReady := inferenceServiceReadiness (Status existingService) in
    if DeepEqual (Status existingService) (Status desiredService) then
      (* nothing changed: no update, so that a stale copy never overwrites
         a prior update *)
      mret (desiredService, None)
    else
      u ← call (StatusUpdate desiredService) (fun u => CallStatusUpdate desiredService u.1 u.2);
      let desiredService := u.1 in
      match u.2 with
      | Some err =>
        Eventf desiredService v1.EventTypeWarning "UpdateFailed"
               "Failed to update status for InferenceService %q: %v"
               [record.ArgString (Name desiredService); record.ArgError err];;
        mret (desiredService,
              Some (errors.Wrapf err "fails to update InferenceService status"))
      | None =>
        let isReady := inferenceServiceReadiness (Status desiredService) in
        (if wasReady && negb isReady then
           Eventf desiredService v1.EventTypeWarning InferenceServiceNotReadyState
                  ("InferenceService [" +:+ Name desiredService +:+ "] is no longer Ready") []
         else if negb wasReady && isReady then
           Eventf desiredService v1.EventTypeNormal InferenceServiceReadyState
                  ("InferenceService [" +:+ Name desiredService +:+ "] is Ready") []
         else mret tt);;
        mret (desiredService, None)
      end
  end.

(** The slice of reconcilers built by [Reconcile]. *)
Definition reconcilers (isvcConfig : ISC) (isvc : InferenceService)
  : list (components.Component ISC) :=
  let reconcilers := [components.NewPredictor isvcConfig] in
  let reconcilers :=
    if bool_decide (Transformer (Spec isvc) ≠ None)
    then reconcilers ++ [components.NewTransformer isvcConfig]
    else reconcilers in
  let reconcilers :=
    if bool_decide (Explainer (Spec isvc) ≠ None)
    then reconcilers ++ [components.NewExplainer isvcConfig]
    else reconcilers in
  reconcilers.

(** The [for _, reconciler := range reconcilers] loop of [Reconcile].  A
    failing reconciler ends the loop and the whole pass: the error handed
    back is the one [Reconcile] returns. *)
Fixpoint reconcileComponents (reconcilers : list (components.Component ISC))
         (isvc : InferenceService) : M (InferenceService * option error) :=
  match reconcilers with
  | [] => mret (isvc, None)
  | reconciler :: rest =>
    c ← call (ComponentReconcile reconciler isvc)
             (fun c => CallComponentReconcile reconciler isvc c.1 c.2);
    let isvc := c.1 in
    match c.2 with
    | Some err =>
      Eventf isvc v1.EventTypeWarning "InternalError" (Error err) [];;
      mret (isvc, Some (errors.Wrapf err "fails to reconcile component"))
    | None => reconcileComponents rest isvc
    end
  end.

(** [Reconcile] *)
Definition Reconcile (req : ctrl.Request) : M (reconcile.Result * option error) :=
  g ← call (Get (ctrl.NamespacedName req)) (CallGet (ctrl.NamespacedName req));
  match g with
  | Err err =>
    if apierr.IsNotFound err then mret (reconcile.zero, None)
    else mret (reconcile.zero, Some err)
  | Ok isvc =>
    c ← call NewInferenceServicesConfig CallNewInferenceServicesConfig;
    match c with
    | Err err =>
      mret (reconcile.zero,
            Some (errors.Wrapf err "fails to create InferenceServicesConfig"))
    | Ok isvcConfig =>
      l ← reconcileComponents (reconcilers isvcConfig isvc) isvc;
      let isvc := l.1 in
      match l.2 with
      | Some err => mret (reconcile.zero, Some err)
      | None =>
        ic ← call NewIngressConfig CallNewIngressConfig;
        match ic with
        | Err err =>
          mret (reconcile.zero, Some (errors.Wrapf err "fails to create IngressConfig"))
        | Ok ingressConfig =>
          i ← call (IngressReconcile ingressConfig isvc)
                   (fun i => CallIngressReconcile ingressConfig isvc i.1 i.2);
          let isvc := i.1 in
          match i.2 with
          | Some err =>
            mret (reconcile.zero, Some (errors.Wrapf err "fails to reconcile ingress"))
          | None =>
            u ← updateStatus isvc;
            let isvc := u.1 in
            match u.2 with
            | Some err =>
              Eventf isvc v1.EventTypeWarning "InternalError" (Error err) [];;
              mret (reconcile.zero, Some err)
            | None => mret (reconcile.zero, None)
            end
          end
        end
      end
    end
  end.

End Controller.

(** ** An in-memory cluster

    A client over a map of stored objects, with sub-reconcilers given as
    functions and faults that can be switched on.  It serves to run the
    controller on concrete passes. *)

(** The library comparison on the status model: a nil and an empty slice
    are the same, and the transition times of conditions (volatile times)
    are always taken as equivalent. *)
Module equality.
Definition conditionEqual (a b : apis.Condition) : bool :=
  bool_decide (apis.Type_ a = apis.Type_ b) &&
  bool_decide (apis.Status a = apis.Status b) &&
  bool_decide (apis.Severity a = apis.Severity b) &&
  bool_decide (apis.Reason a = apis.Reason b) &&
  bool_decide (apis.Message a = apis.Message b).

Fixpoint conditionsEqual (a b : list apis.Condition) : bool :=
  match a, b with
  | [], [] => true
  | x :: a, y :: b => conditionEqual x y && conditionsEqual a b
  | _, _ => false
  end.

Definition statusEqual (a b : InferenceServiceStatus) : bool :=
  conditionsEqual (default [] (Conditions a)) (default [] (Conditions b)) &&
  bool_decide (Components a = Components b).

Lemma conditionEqual_refl c : conditionEqual c c = true.
Proof. unfold conditionEqual. by rewrite !bool_decide_eq_true_2. Qed.

Lemma conditionsEqual_refl cs : conditionsEqual cs cs = true.
Proof. induction cs as [|c cs IH]; simpl; [done|]. by rewrite conditionEqual_refl. Qed.

Lemma statusEqual_refl s : statusEqual s s = true.
Proof.
  unfold statusEqual. rewrite conditionsEqual_refl. by rewrite bool_decide_eq_true_2.
Qed.

Definition Semantic : Equalities :=
  {| DeepEqual := statusEqual; DeepEqual_refl := statusEqual_refl |}.
End equality.

Module fake.
Record Cluster := mkCluster {
  objects : gmap types.NamespacedName InferenceService;
  getFault : option error;
  updateFault : option error;
  inferenceServicesConfig : result string;
  ingressConfig : result string;
  component : components.Kind -> InferenceService -> InferenceService * option error;
  ingress : InferenceService -> InferenceService * option error
}.

Definition notFound (key : types.NamespacedName) : error :=
  StatusError apierr.StatusReasonNotFound
              ("inferenceservices " +:+ types.Name key +:+ " not found").

Definition get (key : types.NamespacedName) (c : Cluster)
  : result InferenceService * Cluster :=
  match getFault c with
  | Some err => (Err err, c)
  | None =>
    match objects c !! key with
    | Some obj => (Ok obj, c)
    | None => (Err (notFound key), c)
    end
  end.

Definition setStatus (obj : InferenceService) (s : InferenceServiceStatus)
  : InferenceService :=
  {| Namespace := Namespace obj; Name := Name obj; Spec := Spec obj; Status := s |}.

(** A write to the status subresource: only the status of the stored
    object changes, and the stored object is the answer. *)
Definition statusUpdate (obj : InferenceService) (c : Cluster)
  : (InferenceService * option error) * Cluster :=
  let key := {| types.Namespace := Namespace obj; types.Name := Name obj |} in
  match updateFault c with
  | Some err => ((obj, Some err), c)
  | None =>
    match objects c !! key with
    | None => ((obj, Some (notFound key)), c)
    | Some stored =>
      let stored' := setStatus stored (Status obj) in
      ((stored', None),
       {| objects := <[key := stored']> (objects c);
          getFault := getFault c;
          updateFault := updateFault c;
          inferenceServicesConfig := inferenceServicesConfig c;
          ingressConfig := ingressConfig c;
          component := component c;
          ingress := ingress c |})
    end
  end.

#[global] Instance client : Client Cluster :=
  {| Get := get; StatusUpdate := statusUpdate |}.

#[global] Instance configs : Configs Cluster string string :=
  {| NewInferenceServicesConfig := fun c => (inferenceServicesConfig c, c);
     NewIngressConfig := fun c => (ingressConfig c, c) |}.

#[global] Instance subReconcilers : Reconcilers Cluster string string :=
  {| ComponentReconcile := fun r isvc c => (component c (components.kind r) isvc, c);
     IngressReconcile := fun _ isvc c => (ingress c isvc, c) |}.

Definition states : States :=
  {| InferenceServiceReadyState := "InferenceServiceReady";
     InferenceServiceNotReadyState := "InferenceServiceNotReady" |}.

(** [Reconcile] on the in-memory cluster. *)
Definition run (req : ctrl.Request) (c : Cluster)
  : Run Cluster string string (reconcile.Result * option error) :=
  Reconcile (equalities := equality.Semantic) (states := states) req c.
End fake.

(** Sample passes on the in-memory cluster: one InferenceService, whose
    sub-reconcilers either set the Ready condition or fail. *)
Module scenario.
Definition key : types.NamespacedName := types.mkNamespacedName "default" "sklearn-iris".
Definition req : ctrl.Request := ctrl.mkRequest key.

Definition ready (s : v1.ConditionStatus) : apis.Condition :=
  apis.mkCondition apis.ConditionReady s "" 0 "" "".

Definition status (s : v1.ConditionStatus) : InferenceServiceStatus :=
  mkInferenceServiceStatus (Some [ready s]) ∅.

Definition isvc (transformer explainer : bool) (s : v1.ConditionStatus)
  : InferenceService :=
  mkInferenceService "default" "sklearn-iris"
    (mkInferenceServiceSpec (mkPredictorSpec "sklearn")
       (if transformer then Some (mkTransformerSpec "image-transformer") else None)
       (if explainer then Some (mkExplainerSpec "alibi") else None))
    (status s).

(** Every component reconciler succeeds and reports readiness [s]. *)
Definition converge (s : v1.ConditionStatus)
  : components.Kind -> InferenceService -> InferenceService * option error :=
  fun _ obj => (fake.setStatus obj (status s), None).

(** As [converge], except that the reconciler of component [k] fails. *)
Definition failing (k : components.Kind) (err : error) (s : v1.ConditionStatus)
  : components.Kind -> InferenceService -> InferenceService * option error :=
  fun k' obj => if decide (k' = k) then (obj, Some err) else converge s k' obj.

Definition ingressOk : InferenceService -> InferenceService * option error :=
  fun obj => (obj, None).

Definition ingressFails (err : error)
  : InferenceService -> InferenceService * option error :=
  fun obj => (obj, Some err).

Definition boom : error := errorString "knative service is not ready".

Definition cluster (obj : InferenceService)
           (component : components.Kind -> InferenceService -> InferenceService * option error)
           (ingress : InferenceService -> InferenceService * option error)
  : fake.Cluster :=
  fake.mkCluster {[ key := obj ]} None None (Ok "inferenceservice-config")
                 (Ok "ingress-config") component ingress.

(** The same cluster with the store rejecting status writes. *)
Definition readOnly (c : fake.Cluster) (err : error) : fake.Cluster :=
  fake.mkCluster (fake.objects c) (fake.getFault c) (Some err)
                 (fake.inferenceServicesConfig c) (fake.ingressConfig c)
                 (fake.component c) (fake.ingress c).

(** The same cluster with the InferenceService config map unreadable. *)
Definition noConfig (c : fake.Cluster) (err : error) : fake.Cluster :=
  fake.mkCluster (fake.objects c) (fake.getFault c) (fake.updateFault c)
                 (Err err) (fake.ingressConfig c)
                 (fake.component c) (fake.ingress c).
End scenario.

(** A client whose first read succeeds and whose later reads fail, as when
    the API server becomes unreachable in the middle of a pass; the cluster
    state is the number of reads made so far. *)
Module flaky.
Definition timeout : error := errorString "context deadline exceeded".

Definition get (key : types.NamespacedName) (reads : nat)
  : result InferenceService * nat :=
  (match reads with
   | O => Ok (scenario.isvc false false v1.ConditionUnknown)
   | S _ => Err timeout
   end, S reads).

Definition client : Client nat :=
  {| Get := get; StatusUpdate := fun obj reads => ((obj, None), reads) |}.

Definition configs : Configs nat string string :=
  {| NewInferenceServicesConfig := fun reads => (Ok "inferenceservice-config", reads);
     NewIngressConfig := fun reads => (Ok "ingress-config", reads) |}.

Definition subReconcilers : Reconcilers nat string string :=
  {| ComponentReconcile := fun _ isvc reads =>
       (scenario.converge v1.ConditionTrue components.PredictorKind isvc, reads);
     IngressReconcile := fun _ isvc reads => ((isvc, None), reads) |}.

Definition run (req : ctrl.Request) (reads : nat)
  : Run nat string string (reconcile.Result * option error) :=
  Reconcile (client := client) (configs := configs) (subReconcilers := subReconcilers)
            (equalities := equality.Semantic) (states := fake.states) req reads.
End flaky.

(** A client on which the object is there for the first read and gone --
    deleted by someone else -- for the later ones. *)
Module vanishing.
Definition get (key : types.NamespacedName) (reads : nat)
  : result InferenceService * nat :=
  (match reads with
   | O => Ok (scenario.isvc false false v1.ConditionUnknown)
   | S _ => Err (fake.notFound key)
   end, S reads).

Definition client : Client nat :=
  {| Get := get; StatusUpdate := fun obj reads => ((obj, None), reads) |}.

Definition run (req : ctrl.Request) (reads : nat)
  : Run nat string string (reconcile.Result * option error) :=
  Reconcile (client := client) (configs := flaky.configs)
            (subReconcilers := flaky.subReconcilers)
            (equalities := equality.Semantic) (states := fake.states) req reads.
End vanishing.

(** ** The paths through a pass

    The outcomes of [updateStatus] and of [Reconcile], one constructor per
    return statement of the source, each with the calls made on the way. *)

Section Paths.
Context {W ISC IC : Type}.
Context {client : Client W} {configs : Configs W ISC IC}.
Context {subReconcilers : Reconcilers W ISC IC}.
Context {equalities : Equalities} {states : States}.

Local Abbreviation Action := (Action ISC IC).
Local Abbreviation Run := (Run W ISC IC).

(** The event of a failed component reconciler or a failed status commit. *)
Definition internalError (isvc : InferenceService) (err : error) : record.Event :=
  record.mkEvent isvc v1.EventTypeWarning "InternalError" (Error err) [].

(** The event of a failed status write. *)
Definition updateFailed (desiredService : InferenceService) (err : error)
  : record.Event :=
  record.mkEvent desiredService v1.EventTypeWarning "UpdateFailed"
    "Failed to update status for InferenceService %q: %v"
    [record.ArgString (Name desiredService); record.ArgError err].

(** The two readiness notifications. *)
Definition noLongerReady (desiredService : InferenceService) : record.Event :=
  record.mkEvent desiredService v1.EventTypeWarning InferenceServiceNotReadyState
    ("InferenceService [" +:+ Name desiredService +:+ "] is no longer Ready") [].

Definition nowReady (desiredService : InferenceService) : record.Event :=
  record.mkEvent desiredService v1.EventTypeNormal InferenceServiceReadyState
    ("InferenceService [" +:+ Name desiredService +:+ "] is Ready") [].

Definition isReadinessNotification (ev : record.Event) : Prop :=
  exists desiredService,
    ev = noLongerReady desiredService \/ ev = nowReady desiredService.

(** The readiness notifications due after a successful write. *)
Definition transition (wasReady isReady : bool) (desiredService : InferenceService)
  : list record.Event :=
  if wasReady && negb isReady then [noLongerReady desiredService]
  else if negb wasReady && isReady then [nowReady desiredService]
  else [].

(** The key [updateStatus] fetches by. *)
Definition keyOf (isvc : InferenceService) : types.NamespacedName :=
  {| types.Name := Name isvc; types.Namespace := Namespace isvc |}.

(** A stretch of trace in which the given reconcilers were called in order
    and each one succeeded. *)
Definition succeeded (cs : list (components.Component ISC)) (tr : list Action)
  : Prop :=
  Forall2 (fun c a => exists isvc isvc', a = CallComponentReconcile c isvc isvc' None)
          cs tr.

Inductive updateStatusPath (desiredService : InferenceService) (w : W)
  : Run (InferenceService * option error) -> Prop :=
| commit_refetch_failed err w1 :
    Get (keyOf desiredService) w = (Err err, w1) ->
    updateStatusPath desiredService w
      (mkRun (desiredService, Some err) w1
             [CallGet (keyOf desiredService) (Err err)])
| commit_unchanged existingService w1 :
    Get (keyOf desiredService) w = (Ok existingService, w1) ->
    DeepEqual (Status existingService) (Status desiredService) = true ->
    updateStatusPath desiredService w
      (mkRun (desiredService, None) w1
             [CallGet (keyOf desiredService) (Ok existingService)])
| commit_write_failed existingService w1 desiredService' err w2 :
    Get (keyOf desiredService) w = (Ok existingService, w1) ->
    DeepEqual (Status existingService) (Status desiredService) = false ->
    StatusUpdate desiredService w1 = ((desiredService', Some err), w2) ->
    updateStatusPath desiredService w
      (mkRun (desiredService',
              Some (errors.Wrapf err "fails to update InferenceService status"))
             w2
             [CallGet (keyOf desiredService) (Ok existingService);
              CallStatusUpdate desiredService desiredService' (Some err);
              CallEventf (updateFailed desiredService' err)])
| commit_written existingService w1 desiredService' w2 :
    Get (keyOf desiredService) w = (Ok existingService, w1) ->
    DeepEqual (Status existingService) (Status desiredService) = false ->
    StatusUpdate desiredService w1 = ((desiredService', None), w2) ->
    updateStatusPath desiredService w
      (mkRun (desiredService', None) w2
             ([CallGet (keyOf desiredService) (Ok existingService);
               CallStatusUpdate desiredService desiredService' None] ++
              map CallEventf
                (transition (inferenceServiceReadiness (Status existingService))
                            (inferenceServiceReadiness (Status desiredService'))
                            desiredService'))).

Inductive reconcileComponentsPath (rs : list (components.Component ISC))
  : Run (InferenceService * option error) -> Prop :=
| components_succeeded isvc' w' tr :
    succeeded rs tr ->
    reconcileComponentsPath rs (mkRun (isvc', None) w' tr)
| component_failed pre reconciler post tr isvc isvc' err w' :
    rs = pre ++ reconciler :: post ->
    succeeded pre tr ->
    reconcileComponentsPath rs
      (mkRun (isvc', Some (errors.Wrapf err "fails to reconcile component")) w'
             (tr ++ [CallComponentReconcile reconciler isvc isvc' (Some err);
                     CallEventf (internalError isvc' err)])).

Inductive ReconcilePath (req : ctrl.Request) (w : W)
  : Run (reconcile.Result * option error) -> Prop :=
| pass_not_found err w1 :
    Get (ctrl.NamespacedName req) w = (Err err, w1) ->
    apierr.IsNotFound err = true ->
    ReconcilePath req w
      (mkRun (reconcile.zero, None) w1 [CallGet (ctrl.NamespacedName req) (Err err)])
| pass_fetch_failed err w1 :
    Get (ctrl.NamespacedName req) w = (Err err, w1) ->
    apierr.IsNotFound err = false ->
    ReconcilePath req w
      (mkRun (reconcile.zero, Some err) w1
             [CallGet (ctrl.NamespacedName req) (Err err)])
| pass_config_failed isvc w1 err w2 :
    Get (ctrl.NamespacedName req) w = (Ok isvc, w1) ->
    NewInferenceServicesConfig w1 = (Err err, w2) ->
    ReconcilePath req w
      (mkRun (reconcile.zero,
              Some (errors.Wrapf err "fails to create InferenceServicesConfig"))
             w2
             [CallGet (ctrl.NamespacedName req) (Ok isvc);
              CallNewInferenceServicesConfig (Err err)])
| pass_component_failed isvc w1 isvcConfig w2 l err :
    Get (ctrl.NamespacedName req) w = (Ok isvc, w1) ->
    NewInferenceServicesConfig w1 = (Ok isvcConfig, w2) ->
    reconcileComponents (reconcilers isvcConfig isvc) isvc w2 = l ->
    (value l).2 = Some err ->
    ReconcilePath req w
      (mkRun (reconcile.zero, Some err) (final l)
             ([CallGet (ctrl.NamespacedName req) (Ok isvc);
               CallNewInferenceServicesConfig (Ok isvcConfig)] ++ trace l))
| pass_ingress_config_failed isvc w1 isvcConfig w2 l err w3 :
    Get (ctrl.NamespacedName req) w = (Ok isvc, w1) ->
    NewInferenceServicesConfig w1 = (Ok isvcConfig, w2) ->
    reconcileComponents (reconcilers isvcConfig isvc) isvc w2 = l ->
    (value l).2 = None ->
    NewIngressConfig (final l) = (Err err, w3) ->
    ReconcilePath req w
      (mkRun (reconcile.zero, Some (errors.Wrapf err "fails to create IngressConfig"))
             w3
             ([CallGet (ctrl.NamespacedName req) (Ok isvc);
               CallNewInferenceServicesConfig (Ok isvcConfig)] ++ trace l ++
              [CallNewIngressConfig (Err err)]))
| pass_ingress_failed isvc w1 isvcConfig w2 l ingressConfig w3 isvc' err w4 :
    Get (ctrl.NamespacedName req) w = (Ok isvc, w1) ->
    NewInferenceServicesConfig w1 = (Ok isvcConfig, w2) ->
    reconcileComponents (reconcilers isvcConfig isvc) isvc w2 = l ->
    (value l).2 = None ->
    NewIngressConfig (final l) = (Ok ingressConfig, w3) ->
    IngressReconcile ingressConfig (value l).1 w3 = ((isvc', Some err), w4) ->
    ReconcilePath req w
      (mkRun (reconcile.zero, Some (errors.Wrapf err "fails to reconcile ingress"))
             w4
             ([CallGet (ctrl.NamespacedName req) (Ok isvc);
               CallNewInferenceServicesConfig (Ok isvcConfig)] ++ trace l ++
              [CallNewIngressConfig (Ok ingressConfig);
               CallIngressReconcile ingressConfig (value l).1 isvc' (Some err)]))
| pass_commit_failed isvc w1 isvcConfig w2 l ingressConfig w3 isvc' w4 u err :
    Get (ctrl.NamespacedName req) w = (Ok isvc, w1) ->
    NewInferenceServicesConfig w1 = (Ok isvcConfig, w2) ->
    reconcileComponents (reconcilers isvcConfig isvc) isvc w2 = l ->
    (value l).2 = None ->
    NewIngressConfig (final l) = (Ok ingressConfig, w3) ->
    IngressReconcile ingressConfig (value l).1 w3 = ((isvc', None), w4) ->
    updateStatus isvc' w4 = u ->
    (value u).2 = Some err ->
    ReconcilePath req w
      (mkRun (reconcile.zero, Some err) (final u)
             ([CallGet (ctrl.NamespacedName req) (Ok isvc);
               CallNewInferenceServicesConfig (Ok isvcConfig)] ++ trace l ++
              [CallNewIngressConfig (Ok ingressConfig);
               CallIngressReconcile ingressConfig (value l).1 isvc' None] ++
              trace u ++ [CallEventf (internalError (value u).1 err)]))
| pass_done isvc w1 isvcConfig w2 l ingressConfig w3 isvc' w4 u :
    Get (ctrl.NamespacedName req) w = (Ok isvc, w1) ->
    NewInferenceServicesConfig w1 = (Ok isvcConfig, w2) ->
    reconcileComponents (reconcilers isvcConfig isvc) isvc w2 = l ->
    (value l).2 = None ->
    NewIngressConfig (final l) = (Ok ingressConfig, w3) ->
    IngressReconcile ingressConfig (value l).1 w3 = ((isvc', None), w4) ->
    updateStatus isvc' w4 = u ->
    (value u).2 = None ->
    ReconcilePath req w
      (mkRun (reconcile.zero, None) (final u)
             ([CallGet (ctrl.NamespacedName req) (Ok isvc);
               CallNewInferenceServicesConfig (Ok isvcConfig)] ++ trace l ++
              [CallNewIngressConfig (Ok ingressConfig);
               CallIngressReconcile ingressConfig (value l).1 isvc' None] ++
              trace u)).

(** The pass [Reconcile req w0] gets through the sub-reconcilers and hands
    the object [desiredService] to the status commit in cluster state [w]. *)
Definition commits (req : ctrl.Request) (w0 : W)
           (desiredService : InferenceService) (w : W) : Prop :=
  exists isvc w1 isvcConfig w2 ingressConfig w3,
    Get (ctrl.NamespacedName req) w0 = (Ok isvc, w1) /\
    NewInferenceServicesConfig w1 = (Ok isvcConfig, w2) /\
    let l := reconcileComponents (reconcilers isvcConfig isvc) isvc w2 in
    (value l).2 = None /\
    NewIngressConfig (final l) = (Ok ingressConfig, w3) /\
    IngressReconcile ingressConfig (value l).1 w3 = ((desiredService, None), w).

End Paths.

(** * Properties *)

(** ** Every run follows one of the paths *)

(** Unfold the monadic plumbing down to the collaborators' answers. *)
Ltac plumbing :=
  unfold mbind, M_bind, mret, M_ret, bind, ret, call, Eventf in *; simpl in *.

Section PathLemmas.
Context {W ISC IC : Type}.
Context {client : Client W} {configs : Configs W ISC IC}.
Context {subReconcilers : Reconcilers W ISC IC}.
Context {equalities : Equalities} {states : States}.

Lemma updateStatus_path desiredService (w : W) :
  updateStatusPath (ISC := ISC) (IC := IC) desiredService w
                   (updateStatus desiredService w).
Proof.
  unfold updateStatus. plumbing. fold (keyOf desiredService).
  destruct (Get (keyOf desiredService) w) as [[existingService|err] w1] eqn:Hget;
    simpl.
  - destruct (DeepEqual _ _) eqn:Heq; simpl.
    + by eapply commit_unchanged.
    + destruct (StatusUpdate desiredService w1) as [[d' [err|]] w2] eqn:Hup; simpl.
      * by eapply commit_write_failed.
      * pose proof (commit_written (ISC := ISC) (IC := IC) desiredService w existingService w1 d' w2
                      Hget Heq Hup) as Hp.
        unfold transition in Hp.
        by destruct (inferenceServiceReadiness (Status existingService)),
             (inferenceServiceReadiness (Status d')).
  - by eapply commit_refetch_failed.
Qed.

Lemma reconcileComponents_path rs isvc (w : W) :
  reconcileComponentsPath rs (reconcileComponents rs isvc w).
Proof.
  revert isvc w. induction rs as [|r rs IH]; intros isvc w; simpl.
  - plumbing. apply components_succeeded. constructor.
  - plumbing.
    destruct (ComponentReconcile r isvc w) as [[isvc' [err|]] w'] eqn:Hc; simpl.
    + apply (component_failed (r :: rs) [] r rs [] isvc isvc' err w');
        [done | constructor].
    + destruct (IH isvc' w') as [i2 w2 tr Hs | pre c post tr i i2 err w2 -> Hs].
      * apply components_succeeded. constructor; eauto.
      * apply (component_failed _ (r :: pre) c post
                 (CallComponentReconcile r isvc isvc' None :: tr) i i2 err w2);
          [done | constructor; eauto].
Qed.

#[local] Opaque updateStatus reconcileComponents.

Lemma Reconcile_path req (w : W) : ReconcilePath req w (Reconcile req w).
Proof.
  unfold Reconcile. plumbing.
  destruct (Get (ctrl.NamespacedName req) w) as [[isvc|err] w1] eqn:Hget; simpl.
  2:{ destruct (apierr.IsNotFound err) eqn:Hnf; simpl.
      - by eapply pass_not_found.
      - by eapply pass_fetch_failed. }
  destruct (NewInferenceServicesConfig w1) as [[isvcConfig|err] w2] eqn:Hcfg; simpl.
  2:{ by eapply pass_config_failed. }
  remember (reconcileComponents (reconcilers isvcConfig isvc) isvc w2) as l eqn:Hl.
  symmetry in Hl.
  destruct (value l).2 as [err|] eqn:Hl2; simpl.
  { rewrite app_nil_r.
    by eapply (pass_component_failed req w isvc w1 isvcConfig w2 l err). }
  destruct (NewIngressConfig (final l)) as [[ingressConfig|err] w3] eqn:Hic; simpl.
  2:{ by eapply (pass_ingress_config_failed req w isvc w1 isvcConfig w2 l err w3). }
  destruct (IngressReconcile ingressConfig (value l).1 w3) as [[isvc' [err|]] w4]
    eqn:Hing; simpl.
  { by eapply (pass_ingress_failed req w isvc w1 isvcConfig w2 l ingressConfig w3
                 isvc' err w4). }
  remember (updateStatus (ISC := ISC) (IC := IC) isvc' w4) as u eqn:Hu. symmetry in Hu.
  destruct (value u).2 as [err|] eqn:Hu2; simpl.
  - by eapply (pass_commit_failed req w isvc w1 isvcConfig w2 l ingressConfig w3
                 isvc' w4 u err).
  - rewrite app_nil_r.
    by eapply (pass_done req w isvc w1 isvcConfig w2 l ingressConfig w3 isvc' w4 u).
Qed.

#[local] Transparent updateStatus reconcileComponents.

End PathLemmas.

(** ** What the trace projections see *)

Section TraceLemmas.
Context {ISC IC : Type}.
Implicit Types tr : list (Action ISC IC).

Lemma componentCalls_app tr1 tr2 :
  componentCalls (tr1 ++ tr2) = componentCalls tr1 ++ componentCalls tr2.
Proof. apply omap_app. Qed.

Lemma componentFailures_app tr1 tr2 :
  componentFailures (tr1 ++ tr2) = componentFailures tr1 ++ componentFailures tr2.
Proof. apply omap_app. Qed.

Lemma ingressCalls_app tr1 tr2 :
  ingressCalls (tr1 ++ tr2) = ingressCalls tr1 ++ ingressCalls tr2.
Proof. apply omap_app. Qed.

Lemma ingressFailures_app tr1 tr2 :
  ingressFailures (tr1 ++ tr2) = ingressFailures tr1 ++ ingressFailures tr2.
Proof. apply omap_app. Qed.

Lemma storeWrites_app tr1 tr2 :
  storeWrites (tr1 ++ tr2) = storeWrites tr1 ++ storeWrites tr2.
Proof. apply omap_app. Qed.

Lemma events_app tr1 tr2 : events (tr1 ++ tr2) = events tr1 ++ events tr2.
Proof. apply omap_app. Qed.

Lemma successfulWrites_app tr1 tr2 :
  successfulWrites (tr1 ++ tr2) = successfulWrites tr1 ++ successfulWrites tr2.
Proof. apply omap_app. Qed.

(** Where no write is attempted, none goes through. *)
Lemma successfulWrites_none tr : storeWrites tr = [] -> successfulWrites tr = [].
Proof.
  induction tr as [|a tr IH]; [done|].
  destruct a as [| | | | |obj obj' [err|]|]; simpl; auto; discriminate.
Qed.

Lemma ingressResults_app tr1 tr2 :
  ingressResults (tr1 ++ tr2) = ingressResults tr1 ++ ingressResults tr2.
Proof. apply omap_app. Qed.

Lemma ingressResults_map_CallEventf (evs : list record.Event) :
  ingressResults (ISC := ISC) (IC := IC) (map CallEventf evs) = [].
Proof. by induction evs. Qed.

Lemma events_map_CallEventf (evs : list record.Event) :
  events (ISC := ISC) (IC := IC) (map CallEventf evs) = evs.
Proof. induction evs as [|ev evs IH]; simpl; [done|]. by f_equal. Qed.

Lemma storeWrites_map_CallEventf (evs : list record.Event) :
  storeWrites (ISC := ISC) (IC := IC) (map CallEventf evs) = [].
Proof. by induction evs. Qed.

Lemma componentCalls_map_CallEventf (evs : list record.Event) :
  componentCalls (ISC := ISC) (IC := IC) (map CallEventf evs) = [].
Proof. by induction evs. Qed.

Lemma componentFailures_map_CallEventf (evs : list record.Event) :
  componentFailures (ISC := ISC) (IC := IC) (map CallEventf evs) = [].
Proof. by induction evs. Qed.

Lemma ingressCalls_map_CallEventf (evs : list record.Event) :
  ingressCalls (ISC := ISC) (IC := IC) (map CallEventf evs) = [].
Proof. by induction evs. Qed.

Lemma ingressFailures_map_CallEventf (evs : list record.Event) :
  ingressFailures (ISC := ISC) (IC := IC) (map CallEventf evs) = [].
Proof. by induction evs. Qed.

Lemma elem_of_map_CallEventf (a : Action ISC IC) (evs : list record.Event) :
  a ∈ map CallEventf evs -> exists ev, a = CallEventf ev.
Proof.
  induction evs as [|ev evs IH]; simpl; intros Hin.
  - by apply elem_of_nil in Hin.
  - apply elem_of_cons in Hin as [-> | Hin]; eauto.
Qed.

Lemma succeeded_componentCalls cs tr : succeeded cs tr -> componentCalls tr = cs.
Proof.
  induction 1 as [|c a cs tr (i & i' & ->) _ IH]; simpl; [done|]. by f_equal.
Qed.

(** Successful component calls are all there is in such a stretch. *)
Lemma succeeded_quiet cs tr :
  succeeded cs tr ->
  componentFailures tr = [] /\ ingressCalls tr = [] /\ ingressFailures tr = [] /\
  storeWrites tr = [] /\ events tr = [] /\ ingressResults tr = [].
Proof.
  induction 1 as [|c a cs tr (i & i' & ->) _ IH]; simpl; [done|]. exact IH.
Qed.

Lemma succeeded_no_ingress cs tr a :
  succeeded cs tr -> a ∈ tr ->
  exists c isvc isvc', a = CallComponentReconcile c isvc isvc' None.
Proof.
  induction 1 as [|c b cs tr (i & i' & ->) _ IH]; intros Hin.
  - by apply elem_of_nil in Hin.
  - apply elem_of_cons in Hin as [-> | Hin]; eauto.
Qed.

End TraceLemmas.

Create Rewrite HintDb trace.
#[global] Hint Rewrite @componentCalls_app @componentFailures_app @ingressCalls_app
  @ingressFailures_app @storeWrites_app @events_app @events_map_CallEventf
  @storeWrites_map_CallEventf @componentCalls_map_CallEventf
  @componentFailures_map_CallEventf @ingressCalls_map_CallEventf
  @ingressFailures_map_CallEventf @ingressResults_app
  @ingressResults_map_CallEventf @successfulWrites_app : trace.

(** ** The readiness evaluator *)

Lemma GetCondition_Some status t c :
  GetCondition status t = Some c ->
  exists cs, Conditions status = Some cs /\ c ∈ cs /\ apis.Type_ c = t.
Proof.
  unfold GetCondition. destruct (Conditions status) as [cs|]; [|done].
  intros Hf. apply find_some in Hf as [Hin Ht].
  apply bool_decide_eq_true in Ht. apply list_elem_of_In in Hin. eauto.
Qed.

Lemma GetCondition_present status t cs c :
  Conditions status = Some cs -> c ∈ cs -> apis.Type_ c = t ->
  is_Some (GetCondition status t).
Proof.
  intros Hcs Hin Ht. unfold GetCondition. rewrite Hcs.
  destruct (find _ cs) as [c'|] eqn:Hf; [by eexists|].
  apply list_elem_of_In in Hin. apply (find_none _ _ Hf) in Hin.
  by rewrite bool_decide_eq_true_2 in Hin.
Qed.

(** C5.  The readiness evaluator answers true exactly when the condition
    set is there and non-empty, a condition named "Ready" is present in it,
    and the value of that condition (the one [GetCondition] hands back) is
    "True".  With no condition set, with no Ready condition, or with a
    Ready condition whose value is anything else -- "False" and "Unknown"
    in particular -- it answers false. *)
Theorem inferenceServiceReadiness_spec (status : InferenceServiceStatus) :
  (inferenceServiceReadiness status = true <->
   exists cs c,
     Conditions status = Some cs /\ cs <> [] /\
     c ∈ cs /\ apis.Type_ c = apis.ConditionReady /\
     GetCondition status apis.ConditionReady = Some c /\
     apis.Status c = v1.ConditionTrue) /\
  (Conditions status = None -> inferenceServiceReadiness status = false) /\
  (GetCondition status apis.ConditionReady = None ->
   inferenceServiceReadiness status = false) /\
  (forall c, GetCondition status apis.ConditionReady = Some c ->
             apis.Status c <> v1.ConditionTrue ->
             inferenceServiceReadiness status = false) /\
  (forall c, GetCondition status apis.ConditionReady = Some c ->
             apis.Status c = v1.ConditionFalse \/ apis.Status c = v1.ConditionUnknown ->
             inferenceServiceReadiness status = false).
Proof.
  assert (Hneg : forall c, GetCondition status apis.ConditionReady = Some c ->
                           apis.Status c <> v1.ConditionTrue ->
                           inferenceServiceReadiness status = false).
  { intros c Hg Hs. unfold inferenceServiceReadiness. rewrite Hg.
    rewrite (bool_decide_eq_false_2 _ Hs). by rewrite andb_false_r. }
  split_and!.
  - unfold inferenceServiceReadiness. split.
    + intros H. apply andb_true_iff in H as [H Hst].
      apply andb_true_iff in H as [_ _].
      destruct (GetCondition status apis.ConditionReady) as [c|] eqn:Hg; [|done].
      apply bool_decide_eq_true_1 in Hst.
      destruct (GetCondition_Some _ _ _ Hg) as (cs & Hcs & Hin & Ht).
      exists cs, c. split_and!; try done.
      intros ->. by apply elem_of_nil in Hin.
    + intros (cs & c & Hcs & _ & _ & _ & Hg & Hst).
      rewrite Hg, Hcs. by rewrite !bool_decide_eq_true_2.
  - intros Hnone. unfold inferenceServiceReadiness. rewrite Hnone.
    by rewrite bool_decide_eq_false_2 by (intros Hne; by apply Hne).
  - intros Hnone. unfold inferenceServiceReadiness. rewrite Hnone.
    by rewrite andb_false_r.
  - exact Hneg.
  - intros c Hg [Hs | Hs]; apply (Hneg c Hg); by rewrite Hs.
Qed.

(** ** The component calls with their outcomes *)

Section ComponentResults.
Context {ISC IC : Type}.
Implicit Types tr : list (Action ISC IC).

Lemma componentResults_app tr1 tr2 :
  componentResults (tr1 ++ tr2) = componentResults tr1 ++ componentResults tr2.
Proof. apply omap_app. Qed.

Lemma componentResults_map_CallEventf (evs : list record.Event) :
  componentResults (ISC := ISC) (IC := IC) (map CallEventf evs) = [].
Proof. by induction evs. Qed.

Lemma succeeded_componentResults cs tr :
  succeeded cs tr -> componentResults tr = map (fun c => (c, None)) cs.
Proof.
  induction 1 as [|c a cs tr (i & i' & ->) _ IH]; simpl; [done|]. by f_equal.
Qed.

End ComponentResults.

#[global] Hint Rewrite @componentResults_app @componentResults_map_CallEventf : trace.

(** ** Tactics for case analysis on a pass *)

(** Split on the path a pass takes, down to how the component loop and the
    status commit went. *)
Ltac loop_cases :=
  repeat match goal with
  | H : reconcileComponents ?rs ?isvc ?w = ?l |- _ =>
    is_var l;
    let P := fresh "Ploop" in
    pose proof (reconcileComponents_path rs isvc w) as P;
    rewrite H in P;
    destruct P as [? ? ? ? | ? ? ? ? ? ? ? ? ? ?]
  | H : updateStatus ?d ?w = ?u |- _ =>
    is_var u;
    let P := fresh "Pcommit" in
    lazymatch type of u with
    | Run _ ?I ?J _ => pose proof (updateStatus_path (ISC := I) (IC := J) d w) as P
    end;
    rewrite H in P;
    destruct P
  end.

(** Two answers recorded for the same call are the same answer. *)
Ltac same_call :=
  repeat match goal with
  | H1 : ?f = ?a, H2 : ?f = ?b |- _ =>
    lazymatch f with _ _ => idtac end;
    let E := fresh in
    first [ assert (E : a = b) by congruence; clear H2; simplify_eq
          | exfalso; congruence ]
  end.

Ltac pass_cases req w :=
  let P := fresh "Ppass" in
  let R := fresh "R" in
  let HR := fresh "HR" in
  pose proof (Reconcile_path req w) as P;
  remember (Reconcile req w) as R eqn:HR; clear HR;
  destruct P; loop_cases; simpl in *; simplify_eq; same_call.

(** Bring in what is known of a stretch of successful component calls. *)
Ltac quiet :=
  repeat match goal with
  | H : succeeded ?cs ?tr |- _ =>
    let Hc := fresh "Hcalls" in
    pose proof (succeeded_componentCalls cs tr H) as Hc;
    destruct (succeeded_quiet cs tr H) as (? & ? & ? & ? & ? & ?);
    revert H
  end; intros.

Ltac project :=
  quiet; repeat progress (autorewrite with trace in *; simpl in *);
  repeat match goal with
  | H : ?p ?tr = [] |- context [?p ?tr] => rewrite H
  | H : componentCalls ?tr = _ |- context [componentCalls ?tr] => rewrite H
  end; simpl.

(** Where a call recorded in a pass can sit. *)
Ltac locate H :=
  repeat first
    [ apply elem_of_app in H as [H | H]
    | apply elem_of_cons in H as [H | H]
    | apply elem_of_nil in H; destruct H
    | apply elem_of_map_CallEventf in H as [? H]
    | match type of H with
      | _ ∈ ?tr =>
        match goal with
        | Hs : succeeded _ tr |- _ =>
          destruct (succeeded_no_ingress _ _ _ Hs H) as (? & ? & ? & ?); clear H
        end
      end ];
  simplify_eq.

(** ** The reconcile pass *)

Section Pass.
Context {W ISC IC : Type}.
Context {client : Client W} {configs : Configs W ISC IC}.
Context {subReconcilers : Reconcilers W ISC IC}.
Context {equalities : Equalities} {states : States}.

#[local] Opaque updateStatus reconcileComponents.

(** C10.  Whatever path a pass takes, the result it returns is the zero
    [reconcile.Result]: no requeue is requested and no requeue delay is
    set, so that retrying is left to the returned error. *)
Theorem Reconcile_never_requeues (req : ctrl.Request) (w : W) :
  (value (Reconcile req w)).1 = reconcile.zero /\
  reconcile.Requeue (value (Reconcile req w)).1 = false /\
  reconcile.RequeueAfter (value (Reconcile req w)).1 = 0%Z.
Proof.
  assert (H : (value (Reconcile req w)).1 = reconcile.zero).
  { pose proof (Reconcile_path req w) as P. by destruct P. }
  by rewrite H.
Qed.

(** C7.  When the initial fetch fails, nothing but the fetch happens: for a
    "not found" error the pass returns the zero result and a nil error and
    hands no event to the recorder; for any other error it returns that
    very error. *)
Theorem Reconcile_fetch_error (req : ctrl.Request) (w : W) err w1 :
  Get (ctrl.NamespacedName req) w = (Err err, w1) ->
  trace (Reconcile req w) = [CallGet (ctrl.NamespacedName req) (Err err)] /\
  events (trace (Reconcile req w)) = [] /\
  (apierr.IsNotFound err = true ->
   value (Reconcile req w) = (reconcile.zero, None)) /\
  (apierr.IsNotFound err = false ->
   value (Reconcile req w) = (reconcile.zero, Some err)).
Proof.
  intros Hget. pass_cases req w; split_and!; try done; intros; congruence.
Qed.

Lemma reconcilers_unfold (isvcConfig : ISC) (isvc : InferenceService) :
  reconcilers isvcConfig isvc =
  [components.NewPredictor isvcConfig] ++
  (if bool_decide (Transformer (Spec isvc) <> None)
   then [components.NewTransformer isvcConfig] else []) ++
  (if bool_decide (Explainer (Spec isvc) <> None)
   then [components.NewExplainer isvcConfig] else []).
Proof. unfold reconcilers. by repeat case_bool_decide. Qed.

(** C1 (as amended).  For every fetched object for which the inference
    services configuration loads, the reconciler list is the predictor,
    then a transformer exactly when the spec has one, then an explainer
    exactly when the spec has one.  The component reconcilers invoked in the
    pass are an initial stretch of that list, in list order, starting with
    the predictor; they are the whole list when no component reconciler
    fails; and with neither optional component in the spec, the predictor
    reconciler is the one and only component reconciler invoked.  With
    their outcomes: either every reconciler of the list was invoked, in
    list order, and succeeded; or the reconcilers of the list up to some
    point were invoked, in list order, all succeeded but the last, and none
    after it was invoked. *)
Theorem Reconcile_component_order (req : ctrl.Request) (w : W)
        isvc w1 isvcConfig w2 :
  Get (ctrl.NamespacedName req) w = (Ok isvc, w1) ->
  NewInferenceServicesConfig w1 = (Ok isvcConfig, w2) ->
  let rs := reconcilers isvcConfig isvc in
  let tr := trace (Reconcile req w) in
  rs = [components.NewPredictor isvcConfig] ++
       (if bool_decide (Transformer (Spec isvc) <> None)
        then [components.NewTransformer isvcConfig] else []) ++
       (if bool_decide (Explainer (Spec isvc) <> None)
        then [components.NewExplainer isvcConfig] else []) /\
  head rs = Some (components.NewPredictor isvcConfig) /\
  (components.NewTransformer isvcConfig ∈ rs <-> Transformer (Spec isvc) <> None) /\
  (components.NewExplainer isvcConfig ∈ rs <-> Explainer (Spec isvc) <> None) /\
  componentCalls tr `prefix_of` rs /\
  head (componentCalls tr) = Some (components.NewPredictor isvcConfig) /\
  (componentFailures tr = [] -> componentCalls tr = rs) /\
  (Transformer (Spec isvc) = None -> Explainer (Spec isvc) = None ->
   componentCalls tr = [components.NewPredictor isvcConfig]) /\
  (componentResults tr = map (fun c => (c, None)) rs \/
   exists pre c post err,
     rs = pre ++ c :: post /\
     componentResults tr = map (fun c => (c, None)) pre ++ [(c, Some err)]).
Proof.
  intros Hget Hcfg rs tr. subst rs tr.
  pose proof (reconcilers_unfold isvcConfig isvc) as Hrs.
  assert (Hlist :
    head (reconcilers isvcConfig isvc) = Some (components.NewPredictor isvcConfig) /\
    (components.NewTransformer isvcConfig ∈ reconcilers isvcConfig isvc <->
     Transformer (Spec isvc) <> None) /\
    (components.NewExplainer isvcConfig ∈ reconcilers isvcConfig isvc <->
     Explainer (Spec isvc) <> None)).
  { rewrite Hrs. unfold components.NewPredictor, components.NewTransformer,
      components.NewExplainer.
    repeat case_bool_decide; simpl; split_and!; try done;
      (split; intros Hin;
       [ first [ done | exfalso; by locate Hin ]
       | first [ done | set_solver ] ]). }
  destruct Hlist as (Hhead & Htr & Hex).
  assert (Hcalls :
    componentCalls (trace (Reconcile req w)) `prefix_of` reconcilers isvcConfig isvc /\
    head (componentCalls (trace (Reconcile req w))) =
      Some (components.NewPredictor isvcConfig) /\
    (componentFailures (trace (Reconcile req w)) = [] ->
     componentCalls (trace (Reconcile req w)) = reconcilers isvcConfig isvc)).
  { clear Hrs Htr Hex.
    pass_cases req w; project; rewrite ?app_nil_r; try done.
    (* a component reconciler failed *)
    match goal with H : reconcilers _ _ = ?pre ++ _ :: _ |- _ =>
      rewrite H in Hhead |- *; split_and!;
        [ apply prefix_app, prefix_cons, prefix_nil
        | by destruct pre
        | done ]
    end. }
  destruct Hcalls as (Hpre & Hfirst & Hall).
  assert (Hres :
    componentResults (trace (Reconcile req w)) =
      map (fun c => (c, None)) (reconcilers isvcConfig isvc) \/
    exists pre c post err,
      reconcilers isvcConfig isvc = pre ++ c :: post /\
      componentResults (trace (Reconcile req w)) =
        map (fun c => (c, None)) pre ++ [(c, Some err)]).
  { clear Hrs Hhead Htr Hex Hpre Hfirst Hall.
    pass_cases req w;
      repeat match goal with
      | H : succeeded ?cs ?tr |- _ =>
        rewrite (succeeded_componentResults cs tr H); revert H
      end; intros;
      repeat progress (autorewrite with trace; simpl);
      repeat match goal with
      | H : succeeded ?cs ?tr |- _ =>
        rewrite (succeeded_componentResults cs tr H); revert H
      end; intros;
      rewrite ?app_nil_r; first [ by left | right; by eexists _, _, _, _ ]. }
  split_and!; try done.
  intros Ht He.
  assert (Hone : reconcilers isvcConfig isvc = [components.NewPredictor isvcConfig]).
  { rewrite Hrs, Ht, He.
    by rewrite !bool_decide_eq_false_2 by (intros Hne; by apply Hne). }
  rewrite Hone in Hpre.
  destruct Hpre as [k Hk].
  destruct (componentCalls (trace (Reconcile req w))) as [|c cs]; [done|].
  simpl in Hfirst. simplify_eq. by destruct cs.
Qed.

(** C2 (as amended).  In a pass in which a component reconciler fails,
    that call and the event it triggers are the last things that happen: no
    further component reconciler and no ingress reconciler is invoked, no
    status write is attempted, the one event handed to the recorder is a
    warning on the object as the failing reconciler left it, and the error
    returned is the reconciler's error wrapped with the fixed text "fails to
    reconcile component", which says nothing of which component it was. *)
Theorem Reconcile_component_failure (req : ctrl.Request) (w : W)
        c isvc isvc' err :
  CallComponentReconcile c isvc isvc' (Some err) ∈ trace (Reconcile req w) ->
  let tr := trace (Reconcile req w) in
  (exists tr0,
     tr = tr0 ++ [CallComponentReconcile c isvc isvc' (Some err);
                  CallEventf (internalError isvc' err)]) /\
  last (componentCalls tr) = Some c /\
  componentFailures tr = [err] /\
  ingressCalls tr = [] /\
  storeWrites tr = [] /\
  events tr = [internalError isvc' err] /\
  record.eventtype (internalError isvc' err) = v1.EventTypeWarning /\
  record.object (internalError isvc' err) = isvc' /\
  value (Reconcile req w) =
    (reconcile.zero, Some (errors.Wrapf err "fails to reconcile component")).
Proof.
  intros Hin tr. subst tr.
  pass_cases req w; try (exfalso; by locate Hin).
  locate Hin. project.
  split_and!; try done.
  - match goal with |- context [?a :: ?b :: ?t ++ ?l] =>
      exists (a :: b :: t) end.
    done.
  - by rewrite last_snoc.
Qed.

(** C6 (as amended).  In a pass in which the ingress reconciler fails, every
    component reconciler has succeeded, the failing call is the last thing
    that happens, no status write is attempted, the error returned is the
    ingress reconciler's error wrapped with "fails to reconcile ingress" --
    and, unlike for a failing component, no event is handed to the
    recorder. *)
Theorem Reconcile_ingress_failure (req : ctrl.Request) (w : W)
        ingressConfig isvc isvc' err :
  CallIngressReconcile ingressConfig isvc isvc' (Some err) ∈ trace (Reconcile req w) ->
  let tr := trace (Reconcile req w) in
  last tr = Some (CallIngressReconcile ingressConfig isvc isvc' (Some err)) /\
  componentFailures tr = [] /\
  ingressFailures tr = [err] /\
  storeWrites tr = [] /\
  events tr = [] /\
  value (Reconcile req w) =
    (reconcile.zero, Some (errors.Wrapf err "fails to reconcile ingress")).
Proof.
  intros Hin tr. subst tr.
  pass_cases req w; try (exfalso; by locate Hin).
  locate Hin. project.
  split_and!; try done.
  by rewrite app_comm_cons, last_app_cons.
Qed.

(** ** The status commit within a pass *)

(** A pass that reaches the status commit returns what the commit returns,
    leaves the cluster as the commit leaves it, and adds one event when the
    commit fails. *)
Lemma Reconcile_commits (req : ctrl.Request) (w0 : W) desiredService (w : W) :
  commits req w0 desiredService w ->
  let u := updateStatus (ISC := ISC) (IC := IC) desiredService w in
  value (Reconcile req w0) = (reconcile.zero, (value u).2) /\
  final (Reconcile req w0) = final u /\
  storeWrites (trace (Reconcile req w0)) = storeWrites (trace u) /\
  events (trace (Reconcile req w0)) =
    events (trace u) ++
    match (value u).2 with
    | Some err => [internalError (value u).1 err]
    | None => []
    end.
Proof.
  intros (isvc & w1 & isvcConfig & w2 & ingressConfig & w3 &
          Hget & Hcfg & Hl & Hic & Hing) u.
  simpl in Hl, Hic, Hing. subst u.
  pose proof (Reconcile_path req w0) as P.
  remember (Reconcile req w0) as R eqn:HR. clear HR.
  destruct P; repeat (same_call; simplify_eq); simpl;
    match goal with H : (value (updateStatus _ _)).2 = _ |- _ => rewrite H end;
    match goal with H : (value (reconcileComponents ?rs ?i ?w)).2 = None |- _ =>
      let Pl := fresh "Pl" in
      let l := fresh "l" in
      let E := fresh "E" in
      pose proof (reconcileComponents_path rs i w) as Pl;
      remember (reconcileComponents rs i w) as l eqn:E; clear E;
      destruct Pl; [|done]
    end;
    project; by rewrite ?app_nil_r.
Qed.

(** No status write goes through in a pass but in its status commit. *)
Lemma Reconcile_commits_written (req : ctrl.Request) (w0 : W) desiredService (w : W) :
  commits req w0 desiredService w ->
  successfulWrites (trace (Reconcile req w0)) =
  successfulWrites (trace (updateStatus (ISC := ISC) (IC := IC) desiredService w)).
Proof.
  intros (isvc & w1 & isvcConfig & w2 & ingressConfig & w3 &
          Hget & Hcfg & Hl & Hic & Hing).
  simpl in Hl, Hic, Hing.
  pose proof (Reconcile_path req w0) as P.
  remember (Reconcile req w0) as R eqn:HR. clear HR.
  destruct P; repeat (same_call; simplify_eq); simpl;
    match goal with H : (value (reconcileComponents ?rs ?i ?w)).2 = None |- _ =>
      let Pl := fresh "Pl" in
      let l := fresh "l" in
      let E := fresh "E" in
      pose proof (reconcileComponents_path rs i w) as Pl;
      remember (reconcileComponents rs i w) as l eqn:E; clear E;
      destruct Pl; [|done]
    end;
    project;
    match goal with H : storeWrites ?tr = [] |- _ =>
      rewrite (successfulWrites_none tr H) end;
    simpl; by rewrite ?app_nil_r.
Qed.

(** The four ways a status commit can go, as equations. *)
Ltac commit_cases d w :=
  let P := fresh "Pcommit" in
  let u := fresh "u" in
  let Hu := fresh "Hu" in
  pose proof (updateStatus_path (ISC := ISC) (IC := IC) d w) as P;
  remember (updateStatus (ISC := ISC) (IC := IC) d w) as u eqn:Hu; clear Hu;
  destruct P; same_call; try done.

Lemma updateStatus_refetch_failed desiredService (w : W) err w1 :
  Get (keyOf desiredService) w = (Err err, w1) ->
  updateStatus (ISC := ISC) (IC := IC) desiredService w =
  mkRun (desiredService, Some err) w1 [CallGet (keyOf desiredService) (Err err)].
Proof. intros Hget. by commit_cases desiredService w. Qed.

Lemma updateStatus_unchanged desiredService (w : W) existingService w1 :
  Get (keyOf desiredService) w = (Ok existingService, w1) ->
  DeepEqual (Status existingService) (Status desiredService) = true ->
  updateStatus (ISC := ISC) (IC := IC) desiredService w =
  mkRun (desiredService, None) w1 [CallGet (keyOf desiredService) (Ok existingService)].
Proof. intros Hget Heq. by commit_cases desiredService w. Qed.

Lemma updateStatus_write_failed desiredService (w : W) existingService w1
      desiredService' err w2 :
  Get (keyOf desiredService) w = (Ok existingService, w1) ->
  DeepEqual (Status existingService) (Status desiredService) = false ->
  StatusUpdate desiredService w1 = ((desiredService', Some err), w2) ->
  updateStatus (ISC := ISC) (IC := IC) desiredService w =
  mkRun (desiredService',
         Some (errors.Wrapf err "fails to update InferenceService status"))
        w2
        [CallGet (keyOf desiredService) (Ok existingService);
         CallStatusUpdate desiredService desiredService' (Some err);
         CallEventf (updateFailed desiredService' err)].
Proof. intros Hget Heq Hup. by commit_cases desiredService w. Qed.

Lemma updateStatus_written desiredService (w : W) existingService w1
      desiredService' w2 :
  Get (keyOf desiredService) w = (Ok existingService, w1) ->
  DeepEqual (Status existingService) (Status desiredService) = false ->
  StatusUpdate desiredService w1 = ((desiredService', None), w2) ->
  updateStatus (ISC := ISC) (IC := IC) desiredService w =
  mkRun (desiredService', None) w2
        ([CallGet (keyOf desiredService) (Ok existingService);
          CallStatusUpdate desiredService desiredService' None] ++
         map CallEventf
           (transition (inferenceServiceReadiness (Status existingService))
                       (inferenceServiceReadiness (Status desiredService'))
                       desiredService')).
Proof. intros Hget Heq Hup. by commit_cases desiredService w. Qed.

(** The status commit opens with the fetch by the object's key. *)
Lemma updateStatus_refetches_first desiredService (w : W) :
  head (trace (updateStatus (ISC := ISC) (IC := IC) desiredService w)) =
  Some (CallGet (keyOf desiredService) (Get (keyOf desiredService) w).1).
Proof.
  commit_cases desiredService w; simpl;
    match goal with H : Get _ _ = _ |- _ => by rewrite H end.
Qed.

(** The events of the status commit are told apart by their shape. *)
Lemma updateFailed_not_readiness desiredService err :
  ~ isReadinessNotification (updateFailed desiredService err).
Proof. intros (d & [H | H]); discriminate H. Qed.

Lemma internalError_commit_not_readiness isvc err msg :
  ~ isReadinessNotification
      (internalError isvc (errors.Wrapf err ("fails" +:+ msg))).
Proof. intros (d & [H | H]); discriminate H. Qed.

Lemma noLongerReady_neq_nowReady d d' : noLongerReady d <> nowReady d'.
Proof. discriminate. Qed.

(** C8.  The status commit opens by fetching the object afresh by its key.
    When that fetch fails, the fetch is all the commit does: its error is
    handed back as it is, no status write is attempted, and nothing is
    compared -- the outcome is the same for any in-memory object with that
    key, whatever status it carries.  A pass that reaches the commit then
    returns that very error, having written nothing. *)
Theorem updateStatus_refetch_error desiredService (w : W) err w1 :
  Get (keyOf desiredService) w = (Err err, w1) ->
  let u := updateStatus (ISC := ISC) (IC := IC) desiredService w in
  head (trace u) = Some (CallGet (keyOf desiredService) (Err err)) /\
  u = mkRun (desiredService, Some err) w1
            [CallGet (keyOf desiredService) (Err err)] /\
  storeWrites (trace u) = [] /\
  (forall other,
     keyOf other = keyOf desiredService ->
     trace (updateStatus (ISC := ISC) (IC := IC) other w) = trace u /\
     (value (updateStatus (ISC := ISC) (IC := IC) other w)).2 = Some err) /\
  (forall req w0,
     commits req w0 desiredService w ->
     value (Reconcile req w0) = (reconcile.zero, Some err) /\
     storeWrites (trace (Reconcile req w0)) = []).
Proof.
  intros Hget u. subst u.
  rewrite (updateStatus_refetch_failed _ _ _ _ Hget). simpl.
  split_and!; try done.
  - intros other Hkey. rewrite <- Hkey in Hget.
    rewrite (updateStatus_refetch_failed _ _ _ _ Hget). simpl. by rewrite Hkey.
  - intros req w0 Hc.
    destruct (Reconcile_commits req w0 _ _ Hc) as (Hv & _ & Hw & _).
    rewrite (updateStatus_refetch_failed _ _ _ _ Hget) in Hv, Hw. done.
Qed.

(** C9.  When the fetched status differs from the desired one and the
    status write fails, the commit hands one event to the recorder -- a
    warning whose arguments are the object's name and the error of the
    write -- and returns that error wrapped; the event is not a readiness
    notification.  A pass that reaches the commit returns the wrapped error
    and hands the recorder no readiness notification either. *)
Theorem updateStatus_write_error desiredService (w : W) existingService w1
        desiredService' err w2 :
  Get (keyOf desiredService) w = (Ok existingService, w1) ->
  DeepEqual (Status existingService) (Status desiredService) = false ->
  StatusUpdate desiredService w1 = ((desiredService', Some err), w2) ->
  let u := updateStatus (ISC := ISC) (IC := IC) desiredService w in
  let wrapped := errors.Wrapf err "fails to update InferenceService status" in
  value u = (desiredService', Some wrapped) /\
  storeWrites (trace u) = [desiredService] /\
  events (trace u) = [updateFailed desiredService' err] /\
  record.eventtype (updateFailed desiredService' err) = v1.EventTypeWarning /\
  record.args (updateFailed desiredService' err) =
    [record.ArgString (Name desiredService'); record.ArgError err] /\
  ~ isReadinessNotification (updateFailed desiredService' err) /\
  (forall req w0,
     commits req w0 desiredService w ->
     value (Reconcile req w0) = (reconcile.zero, Some wrapped) /\
     events (trace (Reconcile req w0)) =
       [updateFailed desiredService' err; internalError desiredService' wrapped] /\
     Forall (fun ev => ~ isReadinessNotification ev)
            (events (trace (Reconcile req w0)))).
Proof.
  intros Hget Hneq Hup u wrapped. subst u wrapped.
  rewrite (updateStatus_write_failed _ _ _ _ _ _ _ Hget Hneq Hup). simpl.
  split_and!; try done.
  - apply updateFailed_not_readiness.
  - intros req w0 Hc.
    destruct (Reconcile_commits req w0 _ _ Hc) as (Hv & _ & _ & He).
    rewrite (updateStatus_write_failed _ _ _ _ _ _ _ Hget Hneq Hup) in Hv, He.
    simpl in Hv, He. rewrite Hv, He. split_and!; try done.
    repeat constructor.
    + apply updateFailed_not_readiness.
    + apply (internalError_commit_not_readiness _ _ " to update InferenceService status").
Qed.

(** C4.  With the object fetched afresh, [wasReady] its readiness and
    [isReady] the readiness of the desired object after the write (the
    readiness of the desired status, when the write hands the status back
    as it was given): when the write is skipped the commit hands the
    recorder nothing; when the write fails it hands it no readiness
    notification; when the write succeeds it hands it the warning "no
    longer Ready" exactly when [wasReady] and not [isReady], the normal "is
    Ready" exactly when [isReady] and not [wasReady], one event at most, and
    nothing when the two agree.  A pass whose write succeeds hands the
    recorder just these events. *)
Theorem updateStatus_readiness_events desiredService (w : W) existingService w1 :
  Get (keyOf desiredService) w = (Ok existingService, w1) ->
  let tr := trace (updateStatus (ISC := ISC) (IC := IC) desiredService w) in
  let wasReady := inferenceServiceReadiness (Status existingService) in
  if DeepEqual (Status existingService) (Status desiredService) then
    events tr = []
  else
    match StatusUpdate desiredService w1 with
    | ((desiredService', Some err), _) =>
      Forall (fun ev => ~ isReadinessNotification ev) (events tr)
    | ((desiredService', None), _) =>
      let isReady := inferenceServiceReadiness (Status desiredService') in
      events tr = transition wasReady isReady desiredService' /\
      (noLongerReady desiredService' ∈ events tr <->
       wasReady = true /\ isReady = false) /\
      (nowReady desiredService' ∈ events tr <->
       wasReady = false /\ isReady = true) /\
      (wasReady = isReady -> events tr = []) /\
      (forall ev, ev ∈ events tr ->
                  ev = noLongerReady desiredService' \/ ev = nowReady desiredService') /\
      length (events tr) <= 1 /\
      record.eventtype (noLongerReady desiredService') = v1.EventTypeWarning /\
      record.eventtype (nowReady desiredService') = v1.EventTypeNormal /\
      (forall req w0,
         commits req w0 desiredService w ->
         events (trace (Reconcile req w0)) = transition wasReady isReady desiredService') /\
      (Status desiredService' = Status desiredService ->
       events tr =
         transition wasReady (inferenceServiceReadiness (Status desiredService))
                    desiredService')
    end.
Proof.
  intros Hget tr wasReady. subst tr wasReady.
  destruct (DeepEqual _ _) eqn:Heq.
  { by rewrite (updateStatus_unchanged _ _ _ _ Hget Heq). }
  destruct (StatusUpdate desiredService w1) as [[d' [err|]] w2] eqn:Hup.
  { rewrite (updateStatus_write_failed _ _ _ _ _ _ _ Hget Heq Hup). simpl.
    repeat constructor. apply updateFailed_not_readiness. }
  rewrite (updateStatus_written _ _ _ _ _ _ Hget Heq Hup). simpl.
  rewrite events_map_CallEventf.
  split_and!; try done.
  - unfold transition.
    destruct (inferenceServiceReadiness (Status existingService)),
      (inferenceServiceReadiness (Status d')); simpl;
      rewrite ?list_elem_of_singleton; split; try done;
      try (by intros [??]); try (by intros ?%elem_of_nil);
      try (by intros ?%noLongerReady_neq_nowReady);
      try (by intros ?%symmetry%noLongerReady_neq_nowReady).
  - unfold transition.
    destruct (inferenceServiceReadiness (Status existingService)),
      (inferenceServiceReadiness (Status d')); simpl;
      rewrite ?list_elem_of_singleton; split; try done;
      try (by intros [??]); try (by intros ?%elem_of_nil);
      try (by intros ?%noLongerReady_neq_nowReady);
      try (by intros ?%symmetry%noLongerReady_neq_nowReady).
  - intros ->. unfold transition. by destruct (inferenceServiceReadiness _).
  - unfold transition. intros ev.
    destruct (inferenceServiceReadiness (Status existingService)),
      (inferenceServiceReadiness (Status d')); simpl;
      rewrite ?list_elem_of_singleton; auto; by intros ?%elem_of_nil.
  - unfold transition.
    destruct (inferenceServiceReadiness (Status existingService)),
      (inferenceServiceReadiness (Status d')); simpl; lia.
  - intros req w0 Hc.
    destruct (Reconcile_commits req w0 _ _ Hc) as (_ & _ & _ & He).
    rewrite (updateStatus_written _ _ _ _ _ _ Hget Heq Hup) in He.
    simpl in He. rewrite events_map_CallEventf in He. by rewrite app_nil_r in He.
  - by intros ->.
Qed.

(** A commit that finds the fetched status equal to the desired one writes
    nothing, and neither does the pass around it. *)
Lemma updateStatus_skips_write desiredService (w : W) existingService w1 :
  Get (keyOf desiredService) w = (Ok existingService, w1) ->
  Status existingService = Status desiredService \/
  DeepEqual (Status existingService) (Status desiredService) = true ->
  let u := updateStatus (ISC := ISC) (IC := IC) desiredService w in
  u = mkRun (desiredService, None) w1
            [CallGet (keyOf desiredService) (Ok existingService)] /\
  storeWrites (trace u) = [] /\
  (forall req w0,
     commits req w0 desiredService w ->
     value (Reconcile req w0) = (reconcile.zero, None) /\
     storeWrites (trace (Reconcile req w0)) = [] /\
     events (trace (Reconcile req w0)) = []).
Proof.
  intros Hget Hsame u. subst u.
  assert (Heq : DeepEqual (Status existingService) (Status desiredService) = true).
  { destruct Hsame as [-> | H]; [apply DeepEqual_refl | done]. }
  rewrite (updateStatus_unchanged _ _ _ _ Hget Heq). simpl.
  split_and!; try done.
  intros req w0 Hc.
  destruct (Reconcile_commits req w0 _ _ Hc) as (Hv & _ & Hw & He).
  by rewrite (updateStatus_unchanged _ _ _ _ Hget Heq) in Hv, Hw, He.
Qed.

(** Neither the component loop nor the status commit calls the ingress
    reconciler, and the loop writes nothing. *)
Lemma reconcileComponents_quiet rs isvc (w : W) :
  ingressResults (trace (reconcileComponents rs isvc w)) = [] /\
  storeWrites (trace (reconcileComponents rs isvc w)) = [].
Proof.
  pose proof (reconcileComponents_path rs isvc w) as P.
  remember (reconcileComponents rs isvc w) as l eqn:Hl. clear Hl.
  destruct P; project; done.
Qed.

Lemma updateStatus_no_ingress desiredService (w : W) :
  ingressResults (trace (updateStatus (ISC := ISC) (IC := IC) desiredService w)) = [].
Proof. commit_cases desiredService w; project; done. Qed.

End Pass.

#[local] Transparent updateStatus reconcileComponents.

(** ** Two passes on the in-memory cluster *)

Section InMemory.
Context {equalities : Equalities} {states : States}.

Local Abbreviation pass := (Reconcile (W := fake.Cluster) (ISC := string) (IC := string)).
Local Abbreviation commit :=
  (updateStatus (W := fake.Cluster) (ISC := string) (IC := string)).

(** The sub-reconcilers of the in-memory cluster leave its store alone. *)
Lemma fake_reconcileComponents_final rs isvc (c : fake.Cluster) :
  final (reconcileComponents (IC := string) rs isvc c) = c.
Proof.
  revert isvc. induction rs as [|r rs IH]; intros isvc; simpl; [done|].
  plumbing. destruct (fake.component c (components.kind r) isvc) as [isvc' [err|]];
    simpl; [done | apply IH].
Qed.

Lemma fake_Get_inv key (c : fake.Cluster) res c' :
  Get key c = (res, c') -> c' = c.
Proof.
  simpl. unfold fake.get.
  destruct (fake.getFault c); [|destruct (fake.objects c !! key)]; congruence.
Qed.

Lemma fake_Get_Ok key (c : fake.Cluster) obj c' :
  Get key c = (Ok obj, c') ->
  fake.getFault c = None /\ fake.objects c !! key = Some obj.
Proof.
  simpl. unfold fake.get.
  destruct (fake.getFault c); [|destruct (fake.objects c !! key)]; naive_solver.
Qed.

Lemma fake_StatusUpdate_Ok obj (c : fake.Cluster) obj' c' :
  StatusUpdate obj c = ((obj', None), c') ->
  fake.getFault c' = fake.getFault c /\
  fake.objects c' !! keyOf obj = Some obj' /\
  Status obj' = Status obj.
Proof.
  simpl. unfold fake.statusUpdate. fold (keyOf obj).
  destruct (fake.updateFault c); [congruence|].
  destruct (fake.objects c !! keyOf obj) as [stored|]; [|congruence].
  intros [= <- <-]. simpl. split_and!; try done. apply lookup_insert_eq.
Qed.

#[local] Opaque updateStatus reconcileComponents.

(** A pass on the in-memory cluster either stops before the status commit,
    writing nothing and leaving the cluster as it was, or hands the commit
    the object the ingress reconciler returned, in the cluster as it was. *)
Lemma fake_pass req (c : fake.Cluster) :
  (desiredOf (trace (pass req c)) = None /\
   storeWrites (trace (pass req c)) = [] /\
   final (pass req c) = c) \/
  (exists d, desiredOf (trace (pass req c)) = Some d /\
             commits (ISC := string) (IC := string) req c d c).
Proof.
  pose proof (Reconcile_path req c) as P.
  remember (pass req c) as R eqn:HR. clear HR.
  destruct P as
    [ err w1 Hget Hnf | err w1 Hget Hnf | isvc w1 err w2 Hget Hcfg
    | isvc w1 isvcConfig w2 l err Hget Hcfg Hl Hl2
    | isvc w1 isvcConfig w2 l err w3 Hget Hcfg Hl Hl2 Hic
    | isvc w1 isvcConfig w2 l ingressConfig w3 isvc' err w4 Hget Hcfg Hl Hl2 Hic Hing
    | isvc w1 isvcConfig w2 l ingressConfig w3 isvc' w4 u err
        Hget Hcfg Hl Hl2 Hic Hing Hu Hu2
    | isvc w1 isvcConfig w2 l ingressConfig w3 isvc' w4 u
        Hget Hcfg Hl Hl2 Hic Hing Hu Hu2 ];
    pose proof (fake_Get_inv _ _ _ _ Hget) as ->;
    try (injection Hcfg as Hcfg <-);
    try (pose proof (fake_reconcileComponents_final
                       (reconcilers isvcConfig isvc) isvc c) as Hfin;
         rewrite Hl in Hfin;
         destruct (reconcileComponents_quiet (reconcilers isvcConfig isvc) isvc c)
           as [Hq1 Hq2];
         rewrite Hl in Hq1, Hq2);
    try (rewrite Hfin in Hic; injection Hic as Hic <-);
    try (injection Hing as Hing <-);
    unfold desiredOf; simpl; autorewrite with trace; simpl;
    rewrite ?Hq1, ?Hq2; simpl.
  1-6: left; by rewrite ?app_nil_r.
  - right. exists isvc'. split.
    + pose proof (updateStatus_no_ingress (ISC := string) (IC := string) isvc' c) as Hn.
      rewrite Hu in Hn. autorewrite with trace. by rewrite Hn.
    + exists isvc, c, isvcConfig, c, ingressConfig, c. simpl.
      rewrite Hl, Hfin. split_and!; try done; simpl; congruence.
  - right. exists isvc'. split.
    + pose proof (updateStatus_no_ingress (ISC := string) (IC := string) isvc' c) as Hn.
      rewrite Hu in Hn. autorewrite with trace. by rewrite Hn.
    + exists isvc, c, isvcConfig, c, ingressConfig, c. simpl.
      rewrite Hl, Hfin. split_and!; try done; simpl; congruence.
Qed.

Lemma fake_Get_intro key (c : fake.Cluster) obj :
  fake.getFault c = None -> fake.objects c !! key = Some obj ->
  Get key c = (Ok obj, c).
Proof. simpl. unfold fake.get. by intros -> ->. Qed.

Lemma fake_StatusUpdate_Err obj (c : fake.Cluster) obj' err c' :
  StatusUpdate obj c = ((obj', Some err), c') -> c' = c.
Proof.
  simpl. unfold fake.statusUpdate.
  destruct (fake.updateFault c); [congruence|].
  destruct (fake.objects c !! _); congruence.
Qed.

(** On the in-memory cluster, take two passes in a row, the sub-reconcilers
    of the second leaving the object as those of the first did.  Then no
    status write goes through in the second pass; and when the first pass
    returned no error, the second does not even attempt one. *)
Lemma Reconcile_twice_no_write req (c : fake.Cluster) :
  let r1 := pass req c in
  let r2 := pass req (final r1) in
  desiredOf (trace r2) = desiredOf (trace r1) ->
  successfulWrites (trace r2) = [] /\
  ((value r1).2 = None -> storeWrites (trace r2) = []).
Proof.
  intros r1 r2 H2. subst r1 r2.
  destruct (fake_pass req c) as [(Hd1 & Hw1 & Hf1) | (d1 & Hd1 & Hc1)].
  { rewrite Hf1. split; [apply successfulWrites_none; exact Hw1 | intros _; exact Hw1]. }
  destruct (Reconcile_commits req c d1 c Hc1) as (Hv & Hf & Hw & _).
  pose proof (Reconcile_commits_written req c d1 c Hc1) as Hs.
  rewrite Hv. rewrite Hf in H2 |- *. clear Hv Hf.
  pose proof (updateStatus_path (ISC := string) (IC := string) d1 c) as P.
  remember (commit d1 c) as u eqn:Hu. clear Hu.
  destruct P as [ err w1 Hget | e w1 Hget Heq
                | e w1 d' err w2 Hget Heq Hup | e w1 d' w2 Hget Heq Hup ];
    cbn [final value trace snd] in H2, Hw, Hs |- *;
    pose proof (fake_Get_inv _ _ _ _ Hget) as ->.
  { (* the first pass could not fetch the object again *)
    split; [rewrite Hs; reflexivity | intros [=]]. }
  { (* the first pass found nothing to write *)
    split; [rewrite Hs; reflexivity | intros _; rewrite Hw; reflexivity]. }
  { (* the write of the first pass was rejected *)
    pose proof (fake_StatusUpdate_Err _ _ _ _ _ Hup) as ->.
    split; [rewrite Hs; reflexivity | intros [=]]. }
  (* the first pass wrote the status *)
  destruct (fake_Get_Ok _ _ _ _ Hget) as [Hfault _].
  destruct (fake_StatusUpdate_Ok _ _ _ _ Hup) as (Hfault' & Hstored & Hst).
  destruct (fake_pass req w2) as [(_ & Hw2 & _) | (d2 & Hd2 & Hc2)].
  { split; [apply successfulWrites_none; exact Hw2 | intros _; exact Hw2]. }
  rewrite Hd1, Hd2 in H2. injection H2 as ->.
  assert (Hget2 : Get (keyOf d1) w2 = (Ok d', w2)).
  { apply fake_Get_intro; [congruence | done]. }
  destruct (updateStatus_skips_write (ISC := string) (IC := string)
              d1 w2 d' w2 Hget2 (or_introl Hst)) as (_ & _ & Hpass).
  destruct (Hpass req w2 Hc2) as (_ & Hnone & _).
  split; [apply successfulWrites_none; exact Hnone | intros _; exact Hnone].
Qed.

End InMemory.

#[local] Transparent updateStatus reconcileComponents.

(** C3.  Whatever the collaborators: a status commit that finds the status
    fetched afresh equal to the desired one -- structurally, or for the
    library's comparison -- makes no status write, and the pass around it
    returns no error and hands the recorder nothing.  Hence, on the
    in-memory cluster: of two passes in a row with nothing changed in
    between, so that the sub-reconcilers of the second leave the object as
    those of the first did, the second gets no status write through; and
    when the first returned no error, the second attempts none. *)
Theorem status_commit_idempotent :
  (forall (W ISC IC : Type) (client : Client W) (configs : Configs W ISC IC)
          (subReconcilers : Reconcilers W ISC IC)
          (equalities : Equalities) (states : States)
          desiredService (w : W) existingService w1,
     Get (keyOf desiredService) w = (Ok existingService, w1) ->
     Status existingService = Status desiredService \/
     DeepEqual (Status existingService) (Status desiredService) = true ->
     let u := updateStatus (ISC := ISC) (IC := IC) desiredService w in
     u = mkRun (desiredService, None) w1
               [CallGet (keyOf desiredService) (Ok existingService)] /\
     storeWrites (trace u) = [] /\
     (forall req w0,
        commits req w0 desiredService w ->
        value (Reconcile req w0) = (reconcile.zero, None) /\
        storeWrites (trace (Reconcile req w0)) = [] /\
        events (trace (Reconcile req w0)) = [])) /\
  (forall (equalities : Equalities) (states : States)
          (req : ctrl.Request) (c : fake.Cluster),
     let r1 := Reconcile (ISC := string) (IC := string) req c in
     let r2 := Reconcile (ISC := string) (IC := string) req (final r1) in
     desiredOf (trace r2) = desiredOf (trace r1) ->
     successfulWrites (trace r2) = [] /\
     ((value r1).2 = None -> storeWrites (trace r2) = [])).
Proof.
  split.
  - intros W ISC IC client configs subReconcilers equalities states
           desiredService w existingService w1 Hget Hsame.
    exact (updateStatus_skips_write desiredService w existingService w1 Hget Hsame).
  - intros equalities states req c.
    exact (Reconcile_twice_no_write req c).
Qed.

(** * Concrete passes *)

(** ** The four scenarios of the specification *)

(** Scenario A: Ready is unknown, the predictor sets it to true, the ingress
    succeeds: one store write, one "is Ready" normal event. *)
Example scenario_A :
  let c := scenario.cluster (scenario.isvc false false v1.ConditionUnknown)
                            (scenario.converge v1.ConditionTrue) scenario.ingressOk in
  let r := fake.run scenario.req c in
  value r = (reconcile.zero, None) /\
  length (storeWrites (trace r)) = 1 /\
  map (fun ev => (record.eventtype ev, record.messageFmt ev)) (events (trace r)) =
    [("Normal", "InferenceService [sklearn-iris] is Ready")].
Proof. vm_compute. done. Qed.

(** Scenario B: Ready is true and the predictor fails: no store write, one
    warning event, the error handed back, the stored status untouched. *)
Example scenario_B :
  let obj := scenario.isvc false false v1.ConditionTrue in
  let c := scenario.cluster obj
             (scenario.failing components.PredictorKind scenario.boom v1.ConditionTrue)
             scenario.ingressOk in
  let r := fake.run scenario.req c in
  value r = (reconcile.zero,
             Some (errors.Wrapf scenario.boom "fails to reconcile component")) /\
  storeWrites (trace r) = [] /\
  map (fun ev => (record.eventtype ev, record.reason ev, record.messageFmt ev))
      (events (trace r)) =
    [("Warning", "InternalError", "knative service is not ready")] /\
  fake.objects (final r) !! scenario.key = Some obj.
Proof. vm_compute. done. Qed.

(** Scenario C: Ready is true and nothing changes: no store write, no
    event. *)
Example scenario_C :
  let c := scenario.cluster (scenario.isvc false false v1.ConditionTrue)
                            (scenario.converge v1.ConditionTrue) scenario.ingressOk in
  let r := fake.run scenario.req c in
  value r = (reconcile.zero, None) /\
  storeWrites (trace r) = [] /\ events (trace r) = [].
Proof. vm_compute. done. Qed.

(** Scenario D: Ready is true and the reconcilers flip it to false: one store
    write, one "no longer Ready" warning event. *)
Example scenario_D :
  let c := scenario.cluster (scenario.isvc false false v1.ConditionTrue)
                            (scenario.converge v1.ConditionFalse) scenario.ingressOk in
  let r := fake.run scenario.req c in
  value r = (reconcile.zero, None) /\
  length (storeWrites (trace r)) = 1 /\
  map (fun ev => (record.eventtype ev, record.messageFmt ev)) (events (trace r)) =
    [("Warning", "InferenceService [sklearn-iris] is no longer Ready")].
Proof. vm_compute. done. Qed.

(** The library comparison takes a nil and an empty condition slice for the
    same, and ignores transition times. *)
Example DeepEqual_is_coarser :
  equality.statusEqual (mkInferenceServiceStatus None ∅)
                       (mkInferenceServiceStatus (Some []) ∅) = true /\
  equality.statusEqual
    (mkInferenceServiceStatus (Some [apis.mkCondition "Ready" "True" "" 10 "" ""]) ∅)
    (mkInferenceServiceStatus (Some [apis.mkCondition "Ready" "True" "" 20 "" ""]) ∅)
  = true.
Proof. vm_compute. done. Qed.

(** The readiness evaluator on the shapes the specification lists. *)
Example readiness_samples :
  inferenceServiceReadiness (scenario.status v1.ConditionTrue) = true /\
  inferenceServiceReadiness (scenario.status v1.ConditionFalse) = false /\
  inferenceServiceReadiness (scenario.status v1.ConditionUnknown) = false /\
  inferenceServiceReadiness (mkInferenceServiceStatus None ∅) = false /\
  inferenceServiceReadiness (mkInferenceServiceStatus (Some []) ∅) = false /\
  inferenceServiceReadiness
    (mkInferenceServiceStatus
       (Some [apis.mkCondition "PredictorReady" "True" "" 0 "" ""]) ∅) = false.
Proof. vm_compute. done. Qed.

(** ** Where the specification and the controller part ways *)

(** C1, as stated, fails.  The object is fetched and asks for neither a
    transformer nor an explainer, but the InferenceService configuration
    cannot be loaded: the pass returns before any reconciler list is built,
    and the predictor reconciler is not invoked.  And with the
    configuration loaded and a transformer asked for, a failing predictor
    ends the loop: the transformer reconciler, though in the list, is not
    invoked. *)
Lemma Reconcile_component_order_counterexample :
  let obj := scenario.isvc false false v1.ConditionUnknown in
  let c := scenario.noConfig
             (scenario.cluster obj (scenario.converge v1.ConditionTrue)
                               scenario.ingressOk)
             (errorString "configmap inferenceservice-config not found") in
  let r := fake.run scenario.req c in
  let obj' := scenario.isvc true false v1.ConditionUnknown in
  let c' := scenario.cluster obj'
              (scenario.failing components.PredictorKind scenario.boom
                                v1.ConditionTrue)
              scenario.ingressOk in
  let r' := fake.run scenario.req c' in
  (Get scenario.key c = (Ok obj, c) /\
   Transformer (Spec obj) = None /\ Explainer (Spec obj) = None /\
   componentCalls (trace r) = [] /\
   ~ (exists isvcConfig,
        componentCalls (trace r) = [components.NewPredictor isvcConfig])) /\
  (Get scenario.key c' = (Ok obj', c') /\
   Transformer (Spec obj') <> None /\
   reconcilers "inferenceservice-config" obj' =
     [components.NewPredictor "inferenceservice-config";
      components.NewTransformer "inferenceservice-config"] /\
   componentCalls (trace r') = [components.NewPredictor "inferenceservice-config"]).
Proof.
  vm_compute. split_and!; try done. by intros (isvcConfig & H).
Qed.

(** C2, as stated, fails in its last clause: with the same error coming
    once from the predictor and once from the transformer, the two passes
    return the same error, so the returned error does not tell which
    component failed. *)
Lemma Reconcile_component_failure_counterexample :
  let obj := scenario.isvc true false v1.ConditionTrue in
  let rP := fake.run scenario.req
              (scenario.cluster obj
                 (scenario.failing components.PredictorKind scenario.boom
                                   v1.ConditionTrue)
                 scenario.ingressOk) in
  let rT := fake.run scenario.req
              (scenario.cluster obj
                 (scenario.failing components.TransformerKind scenario.boom
                                   v1.ConditionTrue)
                 scenario.ingressOk) in
  components.kind <$> last (componentCalls (trace rP)) = Some components.PredictorKind /\
  componentFailures (trace rP) = [scenario.boom] /\
  components.kind <$> last (componentCalls (trace rT)) = Some components.TransformerKind /\
  componentFailures (trace rT) = [scenario.boom] /\
  (value rP).2 = (value rT).2 /\
  (value rP).2 = Some (errors.Wrapf scenario.boom "fails to reconcile component") /\
  ~ (exists identity : option error -> components.Kind,
       identity (value rP).2 = components.PredictorKind /\
       identity (value rT).2 = components.TransformerKind).
Proof.
  vm_compute. split_and!; try done. intros (identity & HP & HT). congruence.
Qed.

(** C6, as stated, fails in its last clause: every component reconciler
    succeeds, the ingress reconciler fails, and the recorder is handed no
    event at all. *)
Lemma Reconcile_ingress_failure_counterexample :
  let obj := scenario.isvc false false v1.ConditionUnknown in
  let c := scenario.cluster obj (scenario.converge v1.ConditionTrue)
                            (scenario.ingressFails scenario.boom) in
  let r := fake.run scenario.req c in
  componentFailures (trace r) = [] /\
  ingressFailures (trace r) = [scenario.boom] /\
  (value r).2 = Some (errors.Wrapf scenario.boom "fails to reconcile ingress") /\
  events (trace r) = [] /\
  ~ (exists ev, ev ∈ events (trace r) /\ record.eventtype ev = v1.EventTypeWarning).
Proof.
  vm_compute. split_and!; try done. intros (ev & Hin & _). by apply elem_of_nil in Hin.
Qed.

(** ** The theorems at work on concrete passes *)

(** A transformer is asked for and everything succeeds: predictor, then
    transformer. *)
Lemma Reconcile_component_order_witness :
  let obj := scenario.isvc true false v1.ConditionUnknown in
  let c := scenario.cluster obj (scenario.converge v1.ConditionTrue)
                            scenario.ingressOk in
  Get scenario.key c = (Ok obj, c) /\
  NewInferenceServicesConfig c = (Ok "inferenceservice-config", c) /\
  componentCalls (trace (fake.run scenario.req c)) =
    [components.NewPredictor "inferenceservice-config";
     components.NewTransformer "inferenceservice-config"].
Proof.
  intros obj c.
  assert (Hget : Get scenario.key c = (Ok obj, c)) by reflexivity.
  assert (Hcfg : NewInferenceServicesConfig c = (Ok "inferenceservice-config", c))
    by reflexivity.
  split; [exact Hget|]. split; [exact Hcfg|].
  destruct (Reconcile_component_order
              (equalities := equality.Semantic) (states := fake.states)
              scenario.req c obj c "inferenceservice-config" c Hget Hcfg)
    as (_ & _ & _ & _ & _ & _ & Hall & _).
  apply Hall. reflexivity.
Defined.

(** The transformer fails after the predictor has succeeded. *)
Lemma Reconcile_component_failure_witness :
  let obj := scenario.isvc true false v1.ConditionTrue in
  let c := scenario.cluster obj
             (scenario.failing components.TransformerKind scenario.boom
                               v1.ConditionTrue)
             scenario.ingressOk in
  let r := fake.run scenario.req c in
  CallComponentReconcile (components.NewTransformer "inferenceservice-config")
                         obj obj (Some scenario.boom) ∈ trace r /\
  ingressCalls (trace r) = [] /\
  storeWrites (trace r) = [] /\
  events (trace r) = [internalError obj scenario.boom] /\
  value r = (reconcile.zero,
             Some (errors.Wrapf scenario.boom "fails to reconcile component")).
Proof.
  intros obj c r.
  assert (Hin : CallComponentReconcile
                  (components.NewTransformer "inferenceservice-config")
                  obj obj (Some scenario.boom) ∈ trace r).
  { apply (list_elem_of_lookup_2 _ 3). reflexivity. }
  split; [exact Hin|].
  destruct (Reconcile_component_failure
              (equalities := equality.Semantic) (states := fake.states)
              scenario.req c _ obj obj scenario.boom Hin)
    as (_ & _ & _ & Hi & Hw & He & _ & _ & Hv).
  split_and!; [exact Hi | exact Hw | exact He | exact Hv].
Defined.

(** The ingress reconciler fails. *)
Lemma Reconcile_ingress_failure_witness :
  let obj := scenario.isvc false false v1.ConditionTrue in
  let c := scenario.cluster obj (scenario.converge v1.ConditionTrue)
                            (scenario.ingressFails scenario.boom) in
  let r := fake.run scenario.req c in
  CallIngressReconcile "ingress-config" obj obj (Some scenario.boom) ∈ trace r /\
  storeWrites (trace r) = [] /\
  events (trace r) = [] /\
  value r = (reconcile.zero,
             Some (errors.Wrapf scenario.boom "fails to reconcile ingress")).
Proof.
  intros obj c r.
  assert (Hin : CallIngressReconcile "ingress-config" obj obj (Some scenario.boom)
                ∈ trace r).
  { apply (list_elem_of_lookup_2 _ 4). reflexivity. }
  split; [exact Hin|].
  destruct (Reconcile_ingress_failure
              (equalities := equality.Semantic) (states := fake.states)
              scenario.req c "ingress-config" obj obj scenario.boom Hin)
    as (_ & _ & _ & Hw & He & Hv).
  split_and!; [exact Hw | exact He | exact Hv].
Defined.

(** The object is gone from the store; and the store cannot be read. *)
Lemma Reconcile_fetch_error_witness :
  let gone := fake.mkCluster ∅ None None (Ok "inferenceservice-config")
                             (Ok "ingress-config")
                             (scenario.converge v1.ConditionTrue) scenario.ingressOk in
  let down := fake.mkCluster ∅ (Some flaky.timeout) None (Ok "inferenceservice-config")
                             (Ok "ingress-config")
                             (scenario.converge v1.ConditionTrue) scenario.ingressOk in
  (Get scenario.key gone = (Err (fake.notFound scenario.key), gone) /\
   apierr.IsNotFound (fake.notFound scenario.key) = true /\
   value (fake.run scenario.req gone) = (reconcile.zero, None) /\
   events (trace (fake.run scenario.req gone)) = []) /\
  (Get scenario.key down = (Err flaky.timeout, down) /\
   apierr.IsNotFound flaky.timeout = false /\
   value (fake.run scenario.req down) = (reconcile.zero, Some flaky.timeout)).
Proof.
  intros gone down.
  assert (Hgone : Get scenario.key gone = (Err (fake.notFound scenario.key), gone))
    by reflexivity.
  assert (Hdown : Get scenario.key down = (Err flaky.timeout, down)) by reflexivity.
  split.
  - destruct (Reconcile_fetch_error
                (equalities := equality.Semantic) (states := fake.states)
                scenario.req gone (fake.notFound scenario.key) gone Hgone)
      as (_ & He & Hnf & _).
    split_and!; [exact Hgone | reflexivity | apply Hnf; reflexivity | exact He].
  - destruct (Reconcile_fetch_error
                (equalities := equality.Semantic) (states := fake.states)
                scenario.req down flaky.timeout down Hdown)
      as (_ & _ & _ & Hother).
    split_and!; [exact Hdown | reflexivity | apply Hother; reflexivity].
Defined.

(** The first read succeeds, the re-fetch of the status commit times out. *)
Lemma updateStatus_refetch_error_witness :
  let desired := scenario.isvc false false v1.ConditionTrue in
  Get (Client := flaky.client) (keyOf desired) 1 = (Err flaky.timeout, 2) /\
  commits (client := flaky.client) (configs := flaky.configs)
          (subReconcilers := flaky.subReconcilers) scenario.req 0 desired 1 /\
  value (flaky.run scenario.req 0) = (reconcile.zero, Some flaky.timeout) /\
  storeWrites (trace (flaky.run scenario.req 0)) = [].
Proof.
  intros desired.
  assert (Hget : Get (Client := flaky.client) (keyOf desired) 1 = (Err flaky.timeout, 2))
    by reflexivity.
  assert (Hc : commits (client := flaky.client) (configs := flaky.configs)
                       (subReconcilers := flaky.subReconcilers)
                       scenario.req 0 desired 1).
  { exists (scenario.isvc false false v1.ConditionUnknown), 1,
      "inferenceservice-config", 1, "ingress-config", 1.
    cbv zeta. split_and!; reflexivity. }
  split; [exact Hget|]. split; [exact Hc|].
  destruct (updateStatus_refetch_error
              (client := flaky.client) (configs := flaky.configs)
              (subReconcilers := flaky.subReconcilers)
              (equalities := equality.Semantic) (states := fake.states)
              desired 1 flaky.timeout 2 Hget)
    as (_ & _ & _ & _ & Hpass).
  exact (Hpass scenario.req 0 Hc).
Defined.

(** The store rejects the status write of a pass that made the service
    ready. *)
Lemma updateStatus_write_error_witness :
  let existing := scenario.isvc false false v1.ConditionUnknown in
  let desired := scenario.isvc false false v1.ConditionTrue in
  let conflict := errorString "the object has been modified" in
  let c := scenario.readOnly
             (scenario.cluster existing (scenario.converge v1.ConditionTrue)
                               scenario.ingressOk)
             conflict in
  let wrapped := errors.Wrapf conflict "fails to update InferenceService status" in
  Get (keyOf desired) c = (Ok existing, c) /\
  DeepEqual (Equalities := equality.Semantic) (Status existing) (Status desired) = false /\
  StatusUpdate desired c = ((desired, Some conflict), c) /\
  commits (ISC := string) (IC := string) scenario.req c desired c /\
  value (fake.run scenario.req c) = (reconcile.zero, Some wrapped) /\
  events (trace (fake.run scenario.req c)) =
    [updateFailed desired conflict; internalError desired wrapped].
Proof.
  intros existing desired conflict c wrapped.
  assert (Hget : Get (keyOf desired) c = (Ok existing, c)) by reflexivity.
  assert (Hneq : DeepEqual (Equalities := equality.Semantic)
                           (Status existing) (Status desired) = false)
    by reflexivity.
  assert (Hup : StatusUpdate desired c = ((desired, Some conflict), c)) by reflexivity.
  assert (Hc : commits (ISC := string) (IC := string) scenario.req c desired c).
  { exists existing, c, "inferenceservice-config", c, "ingress-config", c.
    cbv zeta. split_and!; reflexivity. }
  split_and!; [exact Hget | exact Hneq | exact Hup | exact Hc | |];
    destruct (updateStatus_write_error
                (ISC := string) (IC := string)
                (equalities := equality.Semantic) (states := fake.states)
                desired c existing c desired conflict c Hget Hneq Hup)
      as (_ & _ & _ & _ & _ & _ & Hpass);
    destruct (Hpass scenario.req c Hc) as (Hv & He & _);
    [exact Hv | exact He].
Defined.

(** The status write of a pass that made the service ready succeeds. *)
Lemma updateStatus_readiness_events_witness :
  let existing := scenario.isvc false false v1.ConditionUnknown in
  let desired := scenario.isvc false false v1.ConditionTrue in
  let c := scenario.cluster existing (scenario.converge v1.ConditionTrue)
                            scenario.ingressOk in
  Get (keyOf desired) c = (Ok existing, c) /\
  events (trace (updateStatus (ISC := string) (IC := string)
                              (equalities := equality.Semantic)
                              (states := fake.states) desired c)) =
    [nowReady (states := fake.states) desired].
Proof.
  intros existing desired c.
  assert (Hget : Get (keyOf desired) c = (Ok existing, c)) by reflexivity.
  split; [exact Hget|].
  pose proof (updateStatus_readiness_events
                (ISC := string) (IC := string)
                (equalities := equality.Semantic) (states := fake.states)
                desired c existing c Hget) as H.
  exact (proj1 H).
Defined.

(** Nothing to write in a pass over a settled service; and nothing to write
    in the pass that follows the one which made the service ready. *)
Lemma status_commit_idempotent_witness :
  let settled := scenario.isvc false false v1.ConditionTrue in
  let c := scenario.cluster settled (scenario.converge v1.ConditionTrue)
                            scenario.ingressOk in
  let fresh := scenario.cluster (scenario.isvc false false v1.ConditionUnknown)
                                (scenario.converge v1.ConditionTrue)
                                scenario.ingressOk in
  let r1 := fake.run scenario.req fresh in
  let r2 := fake.run scenario.req (final r1) in
  (Get (keyOf settled) c = (Ok settled, c) /\
   commits (ISC := string) (IC := string) scenario.req c settled c /\
   storeWrites (trace (fake.run scenario.req c)) = []) /\
  ((value r1).2 = None /\
   desiredOf (trace r2) = desiredOf (trace r1) /\
   length (storeWrites (trace r1)) = 1 /\
   storeWrites (trace r2) = []).
Proof.
  intros settled c fresh r1 r2.
  destruct status_commit_idempotent as [Hcommit Htwice].
  split.
  - assert (Hget : Get (keyOf settled) c = (Ok settled, c)) by reflexivity.
    assert (Hc : commits (ISC := string) (IC := string) scenario.req c settled c).
    { exists settled, c, "inferenceservice-config", c, "ingress-config", c.
      cbv zeta. split_and!; reflexivity. }
    split; [exact Hget|]. split; [exact Hc|].
    destruct (Hcommit fake.Cluster string string _ _ _ equality.Semantic fake.states
                      settled c settled c Hget (or_introl eq_refl))
      as (_ & _ & Hpass).
    destruct (Hpass scenario.req c Hc) as (_ & Hw & _). exact Hw.
  - assert (H1 : (value r1).2 = None) by reflexivity.
    assert (H2 : desiredOf (trace r2) = desiredOf (trace r1)) by reflexivity.
    split; [exact H1|]. split; [exact H2|]. split; [reflexivity|].
    destruct (Htwice equality.Semantic fake.states scenario.req fresh H2)
      as [_ Hnone].
    exact (Hnone H1).
Defined.

(** * Further properties of a pass *)

(** ** More trace projections *)

Section MoreTraceLemmas.
Context {ISC IC : Type}.
Implicit Types tr : list (Action ISC IC).

Lemma failures_app tr1 tr2 : failures (tr1 ++ tr2) = failures tr1 ++ failures tr2.
Proof. apply omap_app. Qed.

Lemma gets_app tr1 tr2 : gets (tr1 ++ tr2) = gets tr1 ++ gets tr2.
Proof. apply omap_app. Qed.

Lemma handoffs_app tr1 tr2 : handoffs (tr1 ++ tr2) = handoffs tr1 ++ handoffs tr2.
Proof. apply omap_app. Qed.

Lemma failures_map_CallEventf (evs : list record.Event) :
  failures (ISC := ISC) (IC := IC) (map CallEventf evs) = [].
Proof. by induction evs. Qed.

Lemma gets_map_CallEventf (evs : list record.Event) :
  gets (ISC := ISC) (IC := IC) (map CallEventf evs) = [].
Proof. by induction evs. Qed.

Lemma handoffs_map_CallEventf (evs : list record.Event) :
  handoffs (ISC := ISC) (IC := IC) (map CallEventf evs) = [].
Proof. by induction evs. Qed.

Lemma successfulWrites_map_CallEventf (evs : list record.Event) :
  successfulWrites (ISC := ISC) (IC := IC) (map CallEventf evs) = [].
Proof. by induction evs. Qed.

(** A stretch of successful component calls holds no failure and no read. *)
Lemma succeeded_clean cs tr :
  succeeded cs tr -> failures tr = [] /\ gets tr = [] /\ successfulWrites tr = [].
Proof.
  induction 1 as [|c a cs tr (i & i' & ->) _ IH]; simpl; [done|]. exact IH.
Qed.

Lemma chained_app start hs1 hs2 :
  chained start (hs1 ++ hs2) <->
  chained start hs1 /\ chained (lastLeft start hs1) hs2.
Proof.
  revert start. induction hs1 as [|[i o] hs1 IH]; intros start; simpl.
  - unfold lastLeft. simpl. tauto.
  - rewrite IH. unfold lastLeft. rewrite last_cons.
    destruct (last hs1) as [[? ?]|]; simpl; tauto.
Qed.

Lemma lastLeft_app start hs1 hs2 :
  lastLeft start (hs1 ++ hs2) = lastLeft (lastLeft start hs1) hs2.
Proof.
  unfold lastLeft. rewrite last_app.
  destruct (last hs2) as [[? ?]|]; [done|]. by destruct (last hs1) as [[? ?]|].
Qed.

End MoreTraceLemmas.

#[global] Hint Rewrite @failures_app @gets_app @handoffs_app @failures_map_CallEventf
  @gets_map_CallEventf @handoffs_map_CallEventf @successfulWrites_map_CallEventf
  : trace.

(** Bring in the rest of what is known of a stretch of successful calls. *)
Ltac clean :=
  repeat match goal with
  | H : succeeded ?cs ?tr |- _ =>
    destruct (succeeded_clean cs tr H) as (? & ? & ?);
    revert H
  end; intros.

(** ** The object handed from call to call *)

Section Handing.
Context {W ISC IC : Type}.
Context {subReconcilers : Reconcilers W ISC IC}.

(** In the component loop each reconciler receives the object as the one
    before it left it, and the loop hands back the object as the last
    reconciler it called left it. *)
Lemma reconcileComponents_chained rs isvc (w : W) :
  chained isvc (handoffs (trace (reconcileComponents rs isvc w))) /\
  lastLeft isvc (handoffs (trace (reconcileComponents rs isvc w))) =
    (value (reconcileComponents rs isvc w)).1.
Proof.
  revert isvc w. induction rs as [|r rs IH]; intros isvc w; simpl; [done|].
  plumbing.
  destruct (ComponentReconcile r isvc w) as [[isvc' [err|]] w'] eqn:Hc; simpl.
  - done.
  - destruct (IH isvc' w') as [Hch Hlast]. split; [done|].
    rewrite <- Hlast. unfold lastLeft. rewrite last_cons.
    by destruct (last _) as [[? ?]|].
Qed.

End Handing.

(** ** Failures outside the component loop *)

Section MorePass.
Context {W ISC IC : Type}.
Context {client : Client W} {configs : Configs W ISC IC}.
Context {subReconcilers : Reconcilers W ISC IC}.
Context {equalities : Equalities} {states : States}.

#[local] Opaque updateStatus reconcileComponents.

(** When the InferenceService configuration cannot be loaded, the fetch and
    the failed load are all that happens: no reconciler runs, nothing is
    written, the recorder is handed nothing, and the error comes back
    wrapped with "fails to create InferenceServicesConfig". *)
Theorem Reconcile_config_failure (req : ctrl.Request) (w : W) err :
  CallNewInferenceServicesConfig (Err err) ∈ trace (Reconcile req w) ->
  let tr := trace (Reconcile req w) in
  (exists isvc,
     tr = [CallGet (ctrl.NamespacedName req) (Ok isvc);
           CallNewInferenceServicesConfig (Err err)]) /\
  componentCalls tr = [] /\
  ingressCalls tr = [] /\
  storeWrites tr = [] /\
  events tr = [] /\
  value (Reconcile req w) =
    (reconcile.zero,
     Some (errors.Wrapf err "fails to create InferenceServicesConfig")).
Proof.
  intros Hin tr. subst tr.
  pass_cases req w; try (exfalso; by locate Hin).
  locate Hin. split_and!; try done. by eexists.
Qed.

(** When the ingress configuration cannot be loaded, every reconciler of
    the list has run and succeeded, the failed load is the last thing that
    happens, the ingress reconciler is not invoked, nothing is written, the
    recorder is handed nothing, and the error comes back wrapped with
    "fails to create IngressConfig". *)
Theorem Reconcile_ingress_config_failure (req : ctrl.Request) (w : W) err :
  CallNewIngressConfig (Err err) ∈ trace (Reconcile req w) ->
  let tr := trace (Reconcile req w) in
  last tr = Some (CallNewIngressConfig (Err err)) /\
  (exists isvc isvcConfig,
     tr !! 0 = Some (CallGet (ctrl.NamespacedName req) (Ok isvc)) /\
     tr !! 1 = Some (CallNewInferenceServicesConfig (Ok isvcConfig)) /\
     componentCalls tr = reconcilers isvcConfig isvc) /\
  componentFailures tr = [] /\
  ingressCalls tr = [] /\
  storeWrites tr = [] /\
  events tr = [] /\
  value (Reconcile req w) =
    (reconcile.zero, Some (errors.Wrapf err "fails to create IngressConfig")).
Proof.
  intros Hin tr. subst tr.
  pass_cases req w; try (exfalso; by locate Hin).
  locate Hin. project. split_and!; try done.
  - by rewrite app_comm_cons, last_snoc.
  - eexists _, _. split_and!; try done. by rewrite app_nil_r.
Qed.

(** The ingress reconciler is invoked once at most, with the loaded ingress
    configuration, and only when every reconciler of the list has run and
    succeeded: what comes before its call in the pass is the fetch, the
    load of the configuration, one successful call of each reconciler of
    the list, in list order, and the load of the ingress configuration;
    what comes after holds no further reconciler call. *)
Theorem Reconcile_ingress_after_components (req : ctrl.Request) (w : W)
        ingressConfig isvc' isvc'' err :
  CallIngressReconcile ingressConfig isvc' isvc'' err ∈ trace (Reconcile req w) ->
  let tr := trace (Reconcile req w) in
  (exists isvc isvcConfig,
     tr !! 0 = Some (CallGet (ctrl.NamespacedName req) (Ok isvc)) /\
     tr !! 1 = Some (CallNewInferenceServicesConfig (Ok isvcConfig)) /\
     componentCalls tr = reconcilers isvcConfig isvc) /\
  componentFailures tr = [] /\
  CallNewIngressConfig (Ok ingressConfig) ∈ tr /\
  ingressCalls tr = [isvc'] /\
  (exists isvc isvcConfig called rest,
     tr = [CallGet (ctrl.NamespacedName req) (Ok isvc);
           CallNewInferenceServicesConfig (Ok isvcConfig)] ++
          called ++
          [CallNewIngressConfig (Ok ingressConfig);
           CallIngressReconcile ingressConfig isvc' isvc'' err] ++
          rest /\
     succeeded (reconcilers isvcConfig isvc) called /\
     componentCalls rest = [] /\
     ingressCalls rest = []).
Proof.
  intros Hin tr. subst tr.
  pass_cases req w; try (exfalso; by locate Hin);
    locate Hin;
    (split_and!;
     [ project; eexists _, _; split_and!; try done; by rewrite ?app_nil_r
     | by project
     | set_solver
     | by project
     | match goal with Hs : succeeded _ ?called |- _ =>
         eexists _, _, called, _;
         split_and!; [reflexivity | exact Hs | by project | by project]
       end ]).
Qed.

(** ** Failing fast *)

(** A pass stops at the first call that fails: at most one call fails in a
    pass.  With none failing the pass returns no error.  With one failing,
    the pass returns that call's error, as it is or wrapped once -- except
    for a "not found" on the initial fetch, which ends the pass without an
    error. *)
Theorem Reconcile_fail_fast (req : ctrl.Request) (w : W) :
  match failures (trace (Reconcile req w)) with
  | [] => (value (Reconcile req w)).2 = None
  | [err] =>
    (value (Reconcile req w)).2 = Some err \/
    (exists msg, (value (Reconcile req w)).2 = Some (errors.Wrapf err msg)) \/
    (apierr.IsNotFound err = true /\
     (value (Reconcile req w)).2 = None /\
     trace (Reconcile req w) = [CallGet (ctrl.NamespacedName req) (Err err)])
  | _ => False
  end.
Proof.
  pass_cases req w; clean; project;
    repeat match goal with
    | H : failures ?tr = [] |- context [failures ?tr] => rewrite H
    end; simpl; eauto 6.
Qed.

(** ** What a pass writes and reads *)

(** A pass attempts one status write at most.  When it attempts one, the
    ingress reconciler has succeeded, the object written is the one the
    ingress reconciler left, and the status fetched afresh by that object's
    key was found to differ from its status: the read whose answer was
    compared is the one that sits between the ingress reconciler's call and
    the write, and no read follows the write. *)
Theorem Reconcile_single_write (req : ctrl.Request) (w : W) :
  let tr := trace (Reconcile req w) in
  storeWrites tr = [] \/
  exists desiredService existingService,
    desiredOf tr = Some desiredService /\
    storeWrites tr = [desiredService] /\
    CallGet (keyOf desiredService) (Ok existingService) ∈ tr /\
    DeepEqual (Status existingService) (Status desiredService) = false /\
    exists ingressConfig isvc desiredService' err before after,
      tr = before ++
           [CallIngressReconcile ingressConfig isvc desiredService None;
            CallGet (keyOf desiredService) (Ok existingService);
            CallStatusUpdate desiredService desiredService' err] ++
           after /\
      storeWrites before = [] /\
      gets after = [] /\
      storeWrites after = [].
Proof.
  intros tr. subst tr. unfold desiredOf.
  pass_cases req w;
    first
      [ left; by project
      | right;
        match goal with H : DeepEqual (Status ?e) (Status ?d) = false |- _ =>
          exists d, e end;
        (split_and!;
         [ by project
         | by project
         | set_solver
         | done
         | match goal with Hs : succeeded _ ?called |- _ =>
             eexists _, _, _, _, (_ :: _ :: called ++ [_]), _;
             split_and!;
             [ simpl; rewrite <- (assoc_L (++)); reflexivity
             | by project
             | by project
             | by project ]
           end ]) ].
Qed.

(** When a status write goes through, the pass returns no error: a pass
    that returns an error has written nothing.  The object whose write went
    through is the one the ingress reconciler left. *)
Theorem Reconcile_error_writes_nothing (req : ctrl.Request) (w : W) :
  let tr := trace (Reconcile req w) in
  successfulWrites tr = [] \/
  (value (Reconcile req w) = (reconcile.zero, None) /\
   exists desiredService,
     desiredOf tr = Some desiredService /\
     successfulWrites tr = [desiredService]).
Proof.
  intros tr. subst tr. unfold desiredOf.
  pass_cases req w; clean; project;
    repeat match goal with
    | H : successfulWrites ?tr = [] |- context [successfulWrites ?tr] => rewrite H
    end; simpl; auto.
  right. split; [done|]. by eexists.
Qed.

(** The object is read once by the key of the request and, when the ingress
    reconciler has succeeded, once more by the namespace and the name of the
    object as the ingress reconciler left it; there is no other read. *)
Theorem Reconcile_reads (req : ctrl.Request) (w : W) :
  let tr := trace (Reconcile req w) in
  match desiredOf tr with
  | None => gets tr = [ctrl.NamespacedName req]
  | Some desiredService =>
    gets tr = [ctrl.NamespacedName req; keyOf desiredService]
  end.
Proof.
  intros tr. subst tr. unfold desiredOf.
  pass_cases req w; clean; project;
    repeat match goal with
    | H : gets ?tr = [] |- context [gets ?tr] => rewrite H
    end; simpl; done.
Qed.

(** ** What a pass tells the recorder *)

(** A pass hands the recorder two events at most, one at most when it
    returns no error.  Every event is a warning, except for the normal
    "is Ready" event, which is only handed over by a pass that returns no
    error and whose status write went through. *)
Theorem Reconcile_events (req : ctrl.Request) (w : W) :
  let tr := trace (Reconcile req w) in
  length (events tr) <= 2 /\
  ((value (Reconcile req w)).2 = None -> length (events tr) <= 1) /\
  Forall (fun ev =>
            record.eventtype ev = v1.EventTypeWarning \/
            (record.eventtype ev = v1.EventTypeNormal /\
             ev = nowReady (record.object ev) /\
             (value (Reconcile req w)).2 = None /\
             length (successfulWrites tr) = 1))
         (events tr).
Proof.
  intros tr. subst tr.
  pass_cases req w; clean; project;
    repeat match goal with
    | H : successfulWrites ?tr = [] |- context [successfulWrites ?tr] => rewrite H
    end; simpl;
    try match goal with
    | |- context [transition ?a ?b ?d] =>
      unfold transition; destruct a, b; simpl
    end;
    (split_and!;
     [ lia
     | done || (intros; lia)
     | repeat match goal with
       | |- Forall _ (_ :: _) => constructor
       | |- Forall _ [] => constructor
       end; first [by left | by right] ]).
Qed.

(** ** Which component reconcilers run *)

Lemma reconcilers_sublist (isvcConfig : ISC) (isvc : InferenceService) :
  reconcilers isvcConfig isvc `sublist_of`
  [components.NewPredictor isvcConfig; components.NewTransformer isvcConfig;
   components.NewExplainer isvcConfig].
Proof.
  rewrite reconcilers_unfold. repeat case_bool_decide; simpl; repeat constructor.
Qed.

(** Whatever the spec asks for and however the pass ends, each component is
    reconciled once at most, all reconcilers are built from the one
    configuration the pass loaded, and their order is predictor,
    transformer, explainer.  A pass that has loaded no configuration runs
    no component reconciler. *)
Theorem Reconcile_component_kinds (req : ctrl.Request) (w : W) :
  let tr := trace (Reconcile req w) in
  NoDup (components.kind <$> componentCalls tr) /\
  (forall isvcConfig,
     tr !! 1 = Some (CallNewInferenceServicesConfig (Ok isvcConfig)) ->
     componentCalls tr `sublist_of`
       [components.NewPredictor isvcConfig; components.NewTransformer isvcConfig;
        components.NewExplainer isvcConfig]) /\
  ((forall isvcConfig,
      tr !! 1 <> Some (CallNewInferenceServicesConfig (Ok isvcConfig))) ->
   componentCalls tr = []).
Proof.
  intros tr. subst tr.
  assert (Hsub : forall (isvcConfig : ISC) isvc calls,
             calls `prefix_of` reconcilers isvcConfig isvc ->
             calls `sublist_of`
               [components.NewPredictor isvcConfig; components.NewTransformer isvcConfig;
                components.NewExplainer isvcConfig]).
  { intros isvcConfig isvc calls [k Hk].
    transitivity (reconcilers isvcConfig isvc); [|apply reconcilers_sublist].
    rewrite Hk. by apply sublist_inserts_r. }
  assert (Hnodup : forall (isvcConfig : ISC) isvc calls,
             calls `prefix_of` reconcilers isvcConfig isvc ->
             NoDup (components.kind <$> calls)).
  { intros isvcConfig isvc calls Hpre.
    eapply sublist_NoDup; [|apply fmap_sublist, (Hsub _ _ _ Hpre)].
    simpl. apply (bool_decide_unpack _). by vm_compute. }
  assert (Hshape :
    componentCalls (trace (Reconcile req w)) = [] \/
    exists isvcConfig isvc,
      trace (Reconcile req w) !! 1 =
        Some (CallNewInferenceServicesConfig (Ok isvcConfig)) /\
      componentCalls (trace (Reconcile req w)) `prefix_of` reconcilers isvcConfig isvc).
  { pass_cases req w; project; rewrite ?app_nil_r;
      first
        [ by left
        | right; eexists _, _; split; [done|];
          first
            [ by exists []; rewrite app_nil_r
            | match goal with H : reconcilers _ _ = ?pre ++ _ :: ?post |- _ =>
                rewrite H; exists post; by rewrite <- (assoc_L (++)) end ] ]. }
  destruct Hshape as [Hnone | (isvcConfig & isvc & Hcfg & Hpre)].
  - rewrite Hnone. split_and!; [constructor | intros; apply sublist_nil_l | done].
  - split_and!.
    + by eapply Hnodup.
    + intros isvcConfig' Hcfg'. rewrite Hcfg in Hcfg'. injection Hcfg' as <-.
      by eapply Hsub.
    + intros Hno. by destruct (Hno isvcConfig).
Qed.

(** ** The object through the pass *)

(** From the fetch on, every call that takes the object -- component
    reconcilers, ingress reconciler, status write -- receives it as the call
    before left it, and every event handed to the recorder is about the
    object as the last of these calls left it. *)
Theorem Reconcile_hands_object_on (req : ctrl.Request) (w : W) isvc :
  trace (Reconcile req w) !! 0 = Some (CallGet (ctrl.NamespacedName req) (Ok isvc)) ->
  let tr := trace (Reconcile req w) in
  chained isvc (handoffs tr) /\
  Forall (fun ev => record.object ev = lastLeft isvc (handoffs tr)) (events tr).
Proof.
  intros Hfirst tr. subst tr.
  pass_cases req w;
    repeat match goal with
    | H : reconcileComponents ?rs ?i ?w2 = _ |- _ =>
      let Hc := fresh "Hchain" in
      pose proof (reconcileComponents_chained rs i w2) as Hc;
      rewrite H in Hc; simpl in Hc; destruct Hc; revert H
    end; intros; project; simplify_eq;
    rewrite ?app_nil_r, ?chained_app, ?lastLeft_app in *;
    try match goal with
    | |- context [transition ?a ?b ?d] =>
      unfold transition; destruct a, b
    end;
    simpl in *; split_and!; try done;
    repeat match goal with
    | |- Forall _ (_ :: _) => constructor
    | |- Forall _ [] => constructor
    end; simpl; try done; intuition congruence.
Qed.

(** ** The object gone between the two reads *)


End MorePass.

(** ** What a pass leaves in the in-memory store *)

Section MoreInMemory.
Context {equalities : Equalities} {states : States}.

Local Abbreviation pass := (Reconcile (W := fake.Cluster) (ISC := string) (IC := string)).
Local Abbreviation commit :=
  (updateStatus (W := fake.Cluster) (ISC := string) (IC := string)).

#[local] Opaque updateStatus reconcileComponents.

(** On the in-memory cluster, a pass that returns an error leaves the
    cluster as it found it; and after a pass that returns no error, the
    object stored under the key of the object the sub-reconcilers left has
    a status that the comparison takes for equal to theirs. *)
Theorem fake_pass_outcome req (c : fake.Cluster) :
  match (value (pass req c)).2 with
  | Some _ => final (pass req c) = c
  | None =>
    forall desiredService,
      desiredOf (trace (pass req c)) = Some desiredService ->
      exists stored,
        fake.objects (final (pass req c)) !! keyOf desiredService = Some stored /\
        DeepEqual (Status stored) (Status desiredService) = true
  end.
Proof.
  destruct (fake_pass req c) as [(Hd1 & Hw1 & Hf1) | (d1 & Hd1 & Hc1)].
  { rewrite Hf1, Hd1. by destruct (value (pass req c)).2. }
  destruct (Reconcile_commits req c d1 c Hc1) as (Hv & Hf & _ & _).
  rewrite Hv, Hf, Hd1. clear Hv Hf.
  pose proof (updateStatus_path (ISC := string) (IC := string) d1 c) as P.
  remember (commit d1 c) as u eqn:Hu. clear Hu.
  destruct P as [ err w1 Hget | e w1 Hget Heq
                | e w1 d' err w2 Hget Heq Hup | e w1 d' w2 Hget Heq Hup ];
    cbn [final value trace snd];
    pose proof (fake_Get_inv _ _ _ _ Hget) as ->.
  - done.
  - intros d [= <-]. destruct (fake_Get_Ok _ _ _ _ Hget) as [_ Hlook]. eauto.
  - by pose proof (fake_StatusUpdate_Err _ _ _ _ _ Hup) as ->.
  - intros d [= <-].
    destruct (fake_StatusUpdate_Ok _ _ _ _ Hup) as (_ & Hstored & Hst).
    exists d'. split; [done|]. rewrite Hst. apply DeepEqual_refl.
Qed.

End MoreInMemory.

#[local] Transparent updateStatus reconcileComponents.

(** ** The loop over a list in two parts *)

Section Splitting.
Context {W ISC IC : Type}.
Context {subReconcilers : Reconcilers W ISC IC}.

(** Running the loop over a list in two parts: the second part runs only
    when the first has succeeded, and then on the object and in the cluster
    state the first part left. *)
Theorem reconcileComponents_app rs1 rs2 isvc (w : W) :
  reconcileComponents (rs1 ++ rs2) isvc w =
  let r1 := reconcileComponents rs1 isvc w in
  match (value r1).2 with
  | Some _ => r1
  | None =>
    let r2 := reconcileComponents rs2 (value r1).1 (final r1) in
    mkRun (value r2) (final r2) (trace r1 ++ trace r2)
  end.
Proof.
  revert isvc w. induction rs1 as [|r rs1 IH]; intros isvc w; simpl.
  - plumbing. by destruct (reconcileComponents rs2 isvc w).
  - plumbing.
    destruct (ComponentReconcile r isvc w) as [[isvc' [err|]] w'] eqn:Hc; simpl.
    + done.
    + rewrite IH. simpl.
      by destruct (value (reconcileComponents rs1 isvc' w')).2.
Qed.

End Splitting.

(** ** The further properties at work on concrete passes *)

(** The configuration of the inference services cannot be read. *)
Lemma Reconcile_config_failure_witness :
  let obj := scenario.isvc true true v1.ConditionUnknown in
  let unreadable := errorString "configmap inferenceservice-config not found" in
  let c := scenario.noConfig
             (scenario.cluster obj (scenario.converge v1.ConditionTrue)
                               scenario.ingressOk)
             unreadable in
  let r := fake.run scenario.req c in
  CallNewInferenceServicesConfig (Err unreadable) ∈ trace r /\
  componentCalls (trace r) = [] /\
  storeWrites (trace r) = [] /\
  events (trace r) = [] /\
  value r = (reconcile.zero,
             Some (errors.Wrapf unreadable "fails to create InferenceServicesConfig")).
Proof.
  intros obj unreadable c r.
  assert (Hin : CallNewInferenceServicesConfig (Err unreadable) ∈ trace r).
  { apply (list_elem_of_lookup_2 _ 1). reflexivity. }
  split; [exact Hin|].
  destruct (Reconcile_config_failure
              (equalities := equality.Semantic) (states := fake.states)
              scenario.req c unreadable Hin)
    as (_ & Hc & _ & Hw & He & Hv).
  split_and!; [exact Hc | exact Hw | exact He | exact Hv].
Defined.

(** The ingress configuration cannot be read. *)
Lemma Reconcile_ingress_config_failure_witness :
  let obj := scenario.isvc true false v1.ConditionUnknown in
  let unreadable := errorString "configmap ingress not found" in
  let c := fake.mkCluster {[ scenario.key := obj ]} None None
                          (Ok "inferenceservice-config") (Err unreadable)
                          (scenario.converge v1.ConditionTrue) scenario.ingressOk in
  let r := fake.run scenario.req c in
  CallNewIngressConfig (Err unreadable) ∈ trace r /\
  componentCalls (trace r) = reconcilers "inferenceservice-config" obj /\
  ingressCalls (trace r) = [] /\
  events (trace r) = [] /\
  value r = (reconcile.zero,
             Some (errors.Wrapf unreadable "fails to create IngressConfig")).
Proof.
  intros obj unreadable c r.
  assert (Hin : CallNewIngressConfig (Err unreadable) ∈ trace r).
  { apply (list_elem_of_lookup_2 _ 4). reflexivity. }
  split; [exact Hin|].
  destruct (Reconcile_ingress_config_failure
              (equalities := equality.Semantic) (states := fake.states)
              scenario.req c unreadable Hin)
    as (_ & _ & _ & Hi & _ & He & Hv).
  split_and!; [reflexivity | exact Hi | exact He | exact Hv].
Defined.

(** The ingress reconciler runs after predictor and explainer. *)
Lemma Reconcile_ingress_after_components_witness :
  let obj := scenario.isvc false true v1.ConditionTrue in
  let c := scenario.cluster obj (scenario.converge v1.ConditionTrue)
                            scenario.ingressOk in
  let r := fake.run scenario.req c in
  CallIngressReconcile "ingress-config" obj obj None ∈ trace r /\
  componentFailures (trace r) = [] /\
  ingressCalls (trace r) = [obj] /\
  componentCalls (trace r) =
    [components.NewPredictor "inferenceservice-config";
     components.NewExplainer "inferenceservice-config"].
Proof.
  intros obj c r.
  assert (Hin : CallIngressReconcile "ingress-config" obj obj None ∈ trace r).
  { apply (list_elem_of_lookup_2 _ 5). reflexivity. }
  split; [exact Hin|].
  destruct (Reconcile_ingress_after_components
              (equalities := equality.Semantic) (states := fake.states)
              scenario.req c "ingress-config" obj obj None Hin)
    as (_ & Hf & _ & Hi & _).
  split_and!; [exact Hf | exact Hi | reflexivity].
Defined.

(** The service is made ready: the object goes from the fetch through the
    predictor, the ingress reconciler and the status write. *)
Lemma Reconcile_hands_object_on_witness :
  let obj := scenario.isvc false false v1.ConditionUnknown in
  let obj' := scenario.isvc false false v1.ConditionTrue in
  let c := scenario.cluster obj (scenario.converge v1.ConditionTrue)
                            scenario.ingressOk in
  let r := fake.run scenario.req c in
  trace r !! 0 = Some (CallGet scenario.key (Ok obj)) /\
  handoffs (trace r) = [(obj, obj'); (obj', obj'); (obj', obj')] /\
  chained obj (handoffs (trace r)) /\
  Forall (fun ev => record.object ev = obj') (events (trace r)).
Proof.
  intros obj obj' c r.
  assert (Hfirst : trace r !! 0 = Some (CallGet scenario.key (Ok obj)))
    by reflexivity.
  split; [exact Hfirst|]. split; [reflexivity|].
  exact (Reconcile_hands_object_on
           (equalities := equality.Semantic) (states := fake.states)
           scenario.req c obj Hfirst).
Defined.

